(** * presamples: the packages data loader (src/presamples/loader.py)

    A shallow embedding of [PackagesDataLoader]: loading and consolidating the
    resources of presamples packages, indexing their identifier arrays against
    the dictionaries of a target object, and writing sampled values into the
    matrices of that target.

    Conventions of the embedding.
    - A Python dict with string keys is a [gmap string _]; [d !! k = None] is
      the absent key.  A read [d[k]] of an absent key raises [KeyError k].
    - A Python statement that mutates an object and may raise is a function
      that returns the object after the statement together with the exception
      raised, if any: mutations made before the exception stay.
    - Sample values are floating point numbers in the program.  The loader only
      copies and negates them, so they are integers here.
    - The target ([lca]) is owned by the caller; it is a table from attribute
      names to attribute values.  Two attribute names never share one object
      in this model.  A matrix is a sparse table from (row, column) to value;
      the bounds of the matrix library are not modelled. *)

From stdpp Require Import base option list gmap strings fin_maps sorting.
From Stdlib Require Import ZArith Lia.
From Stdlib Require OrderedTypeEx.

Open Scope string_scope.
Open Scope list_scope.
Open Scope Z_scope.

(** ** Exceptions *)

Inductive Error :=
| KeyError (key : string)
| AttributeError (name : string)
| AssertionError (msg : string)
| ConflictingLabels
| IncompatibleIndices
| TypeError
| ValueError
| IndexError
| FileNotFoundError (path : string).

#[global] Instance Error_eq_dec : EqDecision Error.
Proof. solve_decision. Defined.

(** A computation that returns a value or raises. *)
Definition result (A : Type) : Type := Error + A.

Definition ret {A} (x : A) : result A := inr x.
Definition raise {A} (e : Error) : result A := inl e.
Definition bind {A B} (c : result A) (k : A -> result B) : result B :=
  match c with
  | inl e => inl e
  | inr x => k x
  end.

Notation "'let*' x ':=' c 'in' k" := (bind c (fun x => k))
  (at level 10, x name, c at level 100, k at level 200).

Fixpoint mapE {A B} (f : A -> result B) (l : list A) : result (list B) :=
  match l with
  | [] => ret []
  | x :: r => let* y := f x in let* ys := mapE f r in ret (y :: ys)
  end.

(** ** Numpy record arrays

    [dtype] lists the fields (name, type) in order; [cols] holds the column of
    each field.  [a[label]] is a view on the column: writing through it
    changes the array. *)

Record recarray := {
  dtype : list (string * string);
  cols : gmap string (list Z)
}.

#[global] Instance recarray_eq_dec : EqDecision recarray.
Proof. solve_decision. Defined.

(** [a[label]]: numpy raises ValueError when the array has no such field. *)
Definition field (a : recarray) (label : string) : result (list Z) :=
  match cols a !! label with
  | Some c => ret c
  | None => raise ValueError
  end.

(** [a[label][:] = c] *)
Definition set_field (a : recarray) (label : string) (c : list Z) : recarray :=
  {| dtype := dtype a; cols := <[label := c]> (cols a) |}.

(** [np.hstack([a, b])] of two arrays of one dtype: the records of [a], then
    the records of [b]. *)
Definition hstack2 (a b : recarray) : recarray :=
  {| dtype := dtype a;
     cols := map_imap (fun k c => Some (c ++ default [] (cols b !! k))) (cols a) |}.

Definition hstack (l : list recarray) : result recarray :=
  match l with
  | [] => raise ValueError
  | a :: r => ret (foldl hstack2 a r)
  end.

(** ** Sample arrays *)

(** Modelled from the spec: IrregularPresamplesArray (presamples/array.py) is
    not part of the sources at hand.  The spec's SampleStore is an ordered
    sequence of segments, each a two-dimensional array with one row per record
    and one column per iteration.  The files are immutable inputs, so a
    segment holds its rows. *)
Record IrregularPresamplesArray := {
  segments : list (list (list Z))
}.

#[global] Instance IrregularPresamplesArray_eq_dec : EqDecision IrregularPresamplesArray.
Proof. solve_decision. Defined.

(** The entry of a row in the column [index]; an index outside the row
    raises IndexError. *)
Definition column (index : Z) (row : list Z) : result Z :=
  if decide (0 <= index) then
    match row !! Z.to_nat index with
    | Some v => ret v
    | None => raise IndexError
    end
  else raise IndexError.

(** Modelled from the spec: [sample(index)] of the SampleStore returns the
    column [index] across all segments, in the order of the segments. *)
Definition sample (s : IrregularPresamplesArray) (index : Z) : result (list Z) :=
  mapE (column index) (concat (segments s)).

(** ** Values held by the dicts of the loader

    A resource descriptor of the manifest is a JSON object; after
    consolidation the same dict also holds the loaded arrays and, once
    indexed, the flag ['indexed']. *)

Inductive val :=
| VNone
| VBool (b : bool)
| VInt (z : Z)
| VStr (s : string)
| VFile (filepath : string) (shape : list Z)
| VNames (names : list string)
| VArray (a : recarray)
| VSamples (s : IrregularPresamplesArray).

#[global] Instance val_eq_dec : EqDecision val.
Proof. solve_decision. Defined.

(** Python truth value of [d.get(k)]. *)
Definition truthy (v : option val) : bool :=
  match v with
  | None | Some VNone => false
  | Some (VBool b) => b
  | Some (VInt z) => negb (z =? 0)
  | Some (VStr s) => negb (String.eqb s "")
  | Some (VNames l) => match l with [] => false | _ => true end
  | Some (VFile _ _) | Some (VArray _) | Some (VSamples _) => true
  end.

(** [d[k]] *)
Definition getitem (d : gmap string val) (k : string) : result val :=
  match d !! k with
  | Some v => ret v
  | None => raise (KeyError k)
  end.

(** [k in d] *)
Definition contains (d : gmap string val) (k : string) : bool :=
  bool_decide (is_Some (d !! k)).

(** ** The target *)

(** What an attribute of the target holds: a dictionary from identifiers to
    positions, a matrix, or something else.  The null target has none of the
    attributes the loader asks for. *)
Inductive attr :=
| ADict (d : gmap Z Z)
| AMatrix (m : gmap (Z * Z) Z)
| AOther.

Inductive target :=
| TNone
| TObj (attrs : gmap string attr).

(** [getattr(lca, name)]; the name must be a string. *)
Definition getattr (lca : target) (name : val) : result attr :=
  match name with
  | VStr n =>
      match lca with
      | TNone => raise (AttributeError n)
      | TObj attrs =>
          match attrs !! n with
          | Some a => ret a
          | None => raise (AttributeError n)
          end
      end
  | _ => raise TypeError
  end.

(** [hasattr(lca, name)]: false exactly when [getattr] raises AttributeError. *)
Definition hasattr (lca : target) (name : val) : result bool :=
  match getattr lca name with
  | inr _ => ret true
  | inl (AttributeError _) => ret false
  | inl e => raise e
  end.

(** ** Indexing the identifier arrays *)

(** Modelled from the spec: [index_with_arrays] (bw2calc.indexing) is a
    collaborator outside the sources at hand.  For each raw identifier of
    [array_from] it looks the identifier up in the dictionary and writes the
    position found to the corresponding entry of [array_to].  The loader's
    docstring assumes every identifier is present; an identifier that is not
    gets the marker [-1] here.  The result is the new content of [array_to]. *)
Definition index_with_arrays (array_from : list Z) (mapping : attr) : result (list Z) :=
  match mapping with
  | ADict d => ret (map (fun x => default (-1) (d !! x)) array_from)
  | _ => raise (AttributeError "keys")
  end.

Definition as_array (v : val) : result recarray :=
  match v with
  | VArray a => ret a
  | _ => raise TypeError
  end.

(** [v[label]] for a value [v] that should be a record array. *)
Definition getfield (v : val) (label : val) : result (list Z) :=
  let* a := as_array v in
  match label with
  | VStr l => field a l
  | _ => raise IndexError
  end.

(** One call
    [index_with_arrays(elem['indices'][elem[from_key]],
                       elem['indices'][elem[to_key]],
                       getattr(lca, elem[dict_key]))]
    with its arguments evaluated from left to right; the result is [elem]
    after the call, whose array has the column named by [elem[to_key]]
    overwritten. *)
Definition index_axis (lca : target) (elem : gmap string val)
    (from_key to_key dict_key : string) : result (gmap string val) :=
  let* ind := getitem elem "indices" in
  let* from_label := getitem elem from_key in
  let* array_from := getfield ind from_label in
  let* to_label := getitem elem to_key in
  let* _array_to := getfield ind to_label in
  let* dict_name := getitem elem dict_key in
  let* mapping := getattr lca dict_name in
  let* resolved := index_with_arrays array_from mapping in
  let* a := as_array ind in
  match to_label with
  | VStr l => ret (<["indices" := VArray (set_field a l resolved)]> elem)
  | _ => raise IndexError
  end.

(** The test [not hasattr(lca, elem[dict_key])]. *)
Definition dict_missing (lca : target) (elem : gmap string val) (dict_key : string)
    : result bool :=
  let* dict_name := getitem elem dict_key in
  let* h := hasattr lca dict_name in
  ret (negb h).

(** The body of the inner loop of [index_arrays] for one [elem]. *)
Definition index_elem (lca : target) (elem : gmap string val)
    : gmap string val * option Error :=
  if truthy (elem !! "indexed") then (elem, None)
  else
    match dict_missing lca elem "row dict" with
    | inl e => (elem, Some e)
    | inr true => (elem, None)
    | inr false =>
        match (if contains elem "col dict"
               then dict_missing lca elem "col dict" else ret false) with
        | inl e => (elem, Some e)
        | inr true => (elem, None)
        | inr false =>
            match index_axis lca elem "row from label" "row to label" "row dict" with
            | inl e => (elem, Some e)
            | inr elem1 =>
                match (if contains elem1 "col dict"
                       then index_axis lca elem1 "col from label" "col to label" "col dict"
                       else ret elem1) with
                | inl e => (elem1, Some e)
                | inr elem2 => (<["indexed" := VBool true]> elem2, None)
                end
            end
        end
    end.

(** A [for] loop whose body updates the element it visits: the loop stops at
    the first exception, and the elements visited so far keep their update. *)
Fixpoint for_each {A} (body : A -> A * option Error) (l : list A)
    : list A * option Error :=
  match l with
  | [] => ([], None)
  | x :: r =>
      match body x with
      | (x', Some e) => (x' :: r, Some e)
      | (x', None) =>
          let (r', e) := for_each body r in (x' :: r', e)
      end
  end.

(** ** The loader *)

(** Modelled from the spec: Indexer (presamples/indexer.py) is not part of the
    sources at hand.  The spec's IndexSequencer holds a seed and the state of
    a random number generator seeded with it; each advance produces the next
    index, and the same seed and the same number of advances give the same
    indices.  The generator itself is left open: [randint seed n] is the
    [n]-th index of the generator seeded with [seed].  A generator built with
    no seed takes its seed from the system in the program; here it is one
    more sequence, and nothing is stated about it. *)
Class RandomState := randint : option Z -> nat -> Z.

Record Indexer := {
  seed_value : option Z;
  count : nat;
  index : Z
}.

Definition Indexer_init `{RandomState} (seed : option Z) : Indexer :=
  {| seed_value := seed; count := 0; index := randint seed 0 |}.

Definition Indexer_next `{RandomState} (i : Indexer) : Indexer :=
  {| seed_value := seed_value i;
     count := S (count i);
     index := randint (seed_value i) (S (count i)) |}.

(** The dict returned by [load_data].  Its ['indexer'] is a reference into
    the loader's [sample_indexers]: the lists [sample_indexers], [msi] and
    [psi] and the section share one Indexer object per package. *)
Record section := {
  s_name : val;
  s_id : val;
  s_seed : option Z;
  matrix_data : list (gmap string val);
  parameter_metadata : option (string * list (gmap string val) * val);
  indexer : nat
}.

Record PackagesDataLoader := {
  seed : option Z;
  data : list section;
  parameter_metadata_list : list (string * list (gmap string val) * val);
  sample_indexers : list Indexer;
  msi : list nat;
  psi : list nat;
  empty : bool
}.

Definition set_data (self : PackagesDataLoader) (d : list section) : PackagesDataLoader :=
  {| seed := seed self; data := d;
     parameter_metadata_list := parameter_metadata_list self;
     sample_indexers := sample_indexers self;
     msi := msi self; psi := psi self; empty := empty self |}.

Definition set_matrix_data (obj : section) (md : list (gmap string val)) : section :=
  {| s_name := s_name obj; s_id := s_id obj; s_seed := s_seed obj;
     matrix_data := md; parameter_metadata := parameter_metadata obj;
     indexer := indexer obj |}.

(** The decorator [nonempty]: skip the wrapped method when the loader is
    empty.  [st] is the object the method would mutate. *)
Definition nonempty {S} (instance : PackagesDataLoader)
    (wrapped : S -> S * option Error) (st : S) : S * option Error :=
  if empty instance then (st, None) else wrapped st.

Definition index_section (lca : target) (obj : section) : section * option Error :=
  let (md, e) := for_each (index_elem lca) (matrix_data obj) in
  (set_matrix_data obj md, e).

Definition index_arrays (self : PackagesDataLoader) (lca : target)
    : PackagesDataLoader * option Error :=
  nonempty self
    (fun self =>
       let (d, e) := for_each (index_section lca) (data self) in
       (set_data self d, e))
    self.

(** ** Writing samples into the matrices *)

(** The code of a consumed (technosphere) exchange in the ['type'] column,
    [TYPE_DICTIONARY["technosphere"]] of bw2data. *)
Definition TYPE_technosphere : Z := 1.

Fixpoint flip_masked (types vector : list Z) : result (list Z) :=
  match types, vector with
  | [], [] => ret []
  | t :: ts, v :: vs =>
      let* r := flip_masked ts vs in
      ret ((if t =? TYPE_technosphere then - v else v) :: r)
  | _, _ => raise IndexError
  end.

(** Modelled from the spec: [fix_supply_use] (bw2calc.matrices) is a
    collaborator outside the sources at hand.  It flips the sign of the
    values of the consumer records and keeps the others. *)
Definition fix_supply_use (array : val) (vector : list Z) : result (list Z) :=
  let* types := getfield array (VStr "type") in
  flip_masked types vector.

(** The values assigned to [n] positions: one value each, or a single value
    for all of them. *)
Definition broadcast (n : nat) (vector : list Z) : result (list Z) :=
  if decide (length vector = n) then ret vector
  else
    match vector with
    | [v] => ret (replicate n v)
    | _ => raise ValueError
    end.

(** The elementwise assignments of [matrix[rows, cols] = vector], in order. *)
Definition assignments (rows cols vector : list Z) : result (list (Z * Z * Z)) :=
  if decide (length rows = length cols) then
    let* vs := broadcast (length rows) vector in
    ret (zip (zip rows cols) vs)
  else raise IndexError.

Definition setitem (m : gmap (Z * Z) Z) (ws : list (Z * Z * Z)) : gmap (Z * Z) Z :=
  foldl (fun m w => <[w.1 := w.2]> m) m ws.

(** [indexer.index]; a reference of [msi] always points into
    [sample_indexers], so the attribute is there. *)
Definition indexer_index (indexer : option Indexer) : result Z :=
  match indexer with
  | Some i => ret (index i)
  | None => raise (AttributeError "index")
  end.

(** The value drawn for [elem], after the fix-up of technosphere arrays. *)
Definition elem_sample (indexer : option Indexer) (elem : gmap string val)
    : result (list Z) :=
  let* s := getitem elem "samples" in
  let* i := indexer_index indexer in
  let* vector :=
    match s with
    | VSamples store => sample store i
    | _ => raise (AttributeError "sample")
    end in
  let* type := getitem elem "type" in
  if decide (type = VStr "technosphere") then
    let* ind := getitem elem "indices" in
    fix_supply_use ind vector
  else ret vector.

(** The assignments of the last statement of the loop body. *)
Definition elem_assignments (elem : gmap string val) (vector : list Z)
    : result (list (Z * Z * Z)) :=
  if contains elem "col dict" then
    let* ind := getitem elem "indices" in
    let* row_label := getitem elem "row to label" in
    let* rows := getfield ind row_label in
    let* col_label := getitem elem "col to label" in
    let* cols := getfield ind col_label in
    assignments rows cols vector
  else
    let* ind := getitem elem "indices" in
    let* row_label := getitem elem "row to label" in
    let* rows := getfield ind row_label in
    assignments rows rows vector.

(** [elem['matrix'] not in matrices] when [matrices is not None]. *)
Definition filtered_out (matrices : option (list string)) (name : val) : bool :=
  match matrices with
  | None => false
  | Some l =>
      match name with
      | VStr n => bool_decide (n ∉ l)
      | _ => true
      end
  end.

Definition set_attr (lca : target) (name : val) (a : attr) : target :=
  match lca, name with
  | TObj attrs, VStr n => TObj (<[n := a]> attrs)
  | _, _ => lca
  end.

(** The body of the inner loop of [update_matrices] for one [elem], with the
    Indexer of the package; the result is the target after it. *)
Definition update_elem (matrices : option (list string)) (indexer : option Indexer)
    (elem : gmap string val) (lca : target) : target * option Error :=
  match getitem elem "matrix" with
  | inl e => (lca, Some e)
  | inr name =>
      match getattr lca name with
      | inl (AttributeError _) => (lca, None)
      | inl e => (lca, Some e)
      | inr matrix =>
          if filtered_out matrices name then (lca, None)
          else
            match (let* vector := elem_sample indexer elem in
                   let* ws := elem_assignments elem vector in
                   match matrix with
                   | AMatrix m => ret (AMatrix (setitem m ws))
                   | _ => raise TypeError
                   end) with
            | inl e => (lca, Some e)
            | inr matrix' => (set_attr lca name matrix', None)
            end
      end
  end.

(** A [for] loop over read-only elements whose body updates a state. *)
Fixpoint fold_each {A S} (body : A -> S -> S * option Error) (l : list A) (st : S)
    : S * option Error :=
  match l with
  | [] => (st, None)
  | x :: r =>
      match body x st with
      | (st', Some e) => (st', Some e)
      | (st', None) => fold_each body r st'
      end
  end.

(** The inner loop of [update_matrices] for one pair of [zip(self.msi,
    self.data)].  The first component is the reference to the Indexer of the
    package. *)
Definition update_section (self : PackagesDataLoader) (matrices : option (list string))
    (p : nat * section) (lca : target) : target * option Error :=
  fold_each (update_elem matrices (sample_indexers self !! p.1)) (matrix_data p.2) lca.

Definition update_matrices (self : PackagesDataLoader) (lca : target)
    (matrices : option (list string)) : target * option Error :=
  nonempty self
    (fold_each (update_section self matrices) (zip (msi self) (data self)))
    lca.

(** [update_sample_indices]: every Indexer advances once.  The list
    [_parameters] is not modelled. *)
Definition update_sample_indices `{RandomState} (self : PackagesDataLoader)
    : PackagesDataLoader :=
  {| seed := seed self; data := data self;
     parameter_metadata_list := parameter_metadata_list self;
     sample_indexers := map Indexer_next (sample_indexers self);
     msi := msi self; psi := psi self; empty := empty self |}.

(** ** Loading a package *)

(** What a presamples directory holds: the parsed [datapackage.json] and the
    [.npy] files by name.  A directory here is one that has passed
    [validate_presamples_dirpath], a check made outside the loader.  An
    absent key of the manifest is [None]. *)
Inductive file :=
| FIndices (a : recarray)
| FSamples (rows : list (list Z)).

Record manifest := {
  m_name : option val;
  m_id : option val;
  m_seed : option (option Z);
  m_resources : option (list (gmap string val))
}.

Record directory := {
  path : string;
  datapackage : manifest;
  files : gmap string file
}.

Definition metadata_get {A} (field : option A) (key : string) : result A :=
  match field with
  | Some v => ret v
  | None => raise (KeyError key)
  end.

(** The key of a member of a set: Python compares [True] and [1] equal, and
    refuses the values that cannot be hashed. *)
Definition hash_key (v : val) : result val :=
  match v with
  | VBool b => ret (VInt (if b then 1 else 0))
  | VNone | VInt _ | VStr _ => ret v
  | VFile _ _ | VNames _ | VArray _ | VSamples _ => raise TypeError
  end.

(** The key of the tuple [(el[k1], ..., el[kn])] as a member of a set. *)
Definition tuple_key (keys : list string) (el : gmap string val) : result (list val) :=
  let* vs := mapE (getitem el) keys in
  mapE hash_key vs.

(** [len({...}) == 1] for the set of the listed members. *)
Definition one_member {A} `{EqDecision A} (l : list A) : bool :=
  match l with
  | [] => false
  | x :: r => forallb (fun y => bool_decide (y = x)) r
  end.

Definition load (d : directory) (ref : val) : result file :=
  match ref with
  | VFile filepath _ =>
      match files d !! filepath with
      | Some f => ret f
      | None => raise (FileNotFoundError filepath)
      end
  | _ => raise TypeError
  end.

Definition load_indices (d : directory) (r : gmap string val) : result recarray :=
  let* ref := getitem r "indices" in
  let* f := load d ref in
  match f with
  | FIndices a => ret a
  | FSamples _ => raise ValueError
  end.

Definition load_samples (d : directory) (el : gmap string val) : result (list (list Z)) :=
  let* ref := getitem el "samples" in
  let* f := load d ref in
  match f with
  | FSamples rows => ret rows
  | FIndices _ => raise ValueError
  end.

Definition SKIP : list string := ["indices"; "samples"; "profile"; "format"; "mediatype"].

Definition assert (b : bool) (msg : string) : result unit :=
  if b then ret tt else raise (AssertionError msg).

(** The three checks of the metadata at the head of [consolidate]. *)
Definition check_matrices (group : list (gmap string val)) : result unit :=
  let* matrices := mapE (tuple_key ["matrix"]) group in
  assert (one_member matrices) "Conflicting matrices".

Definition check_rows (group : list (gmap string val)) : result unit :=
  let* rows := mapE (tuple_key ["row from label"; "row to label"; "row dict"]) group in
  if negb (one_member rows) then raise ConflictingLabels else ret tt.

Definition check_cols (group : list (gmap string val)) : result unit :=
  if existsb (fun o => contains o "col dict") group then
    let* cols := mapE (tuple_key ["col from label"; "col to label"; "col dict"]) group in
    if negb (one_member cols) then raise ConflictingLabels else ret tt
  else ret tt.

Definition consolidate (d : directory) (group : list (gmap string val))
    : result (gmap string val) :=
  let* _ := check_matrices group in
  let* _ := check_rows group in
  let* _ := check_cols group in
  let* indices := mapE (load_indices d) group in
  if negb (one_member (map dtype indices)) then raise IncompatibleIndices
  else
    let* indices := hstack indices in
    let* segs := mapE (load_samples d) group in
    let samples := {| segments := segs |} in
    match group with
    | [] => raise IndexError
    | first :: _ =>
        let result := filter (fun kv => kv.1 ∉ SKIP) first in
        ret (<["indices" := VArray indices]> (<["samples" := VSamples samples]> result))
    end.

(** The sort key [x['type']]; the type of a resource is a string. *)
Definition fltr (x : gmap string val) : result string :=
  let* t := getitem x "type" in
  match t with
  | VStr s => ret s
  | _ => raise TypeError
  end.

(** [list.sort(key=...)] is stable: [insert_sorted] puts an element before
    the elements that follow it in the list and have the same key. *)
Fixpoint insert_sorted {A} (x : string * A) (l : list (string * A)) : list (string * A) :=
  match l with
  | [] => [x]
  | y :: r => if String.leb x.1 y.1 then x :: y :: r else y :: insert_sorted x r
  end.

Definition sort_by_key {A} (l : list (string * A)) : list (string * A) :=
  foldr insert_sorted [] l.

(** [itertools.groupby]: the runs of consecutive elements of one key. *)
Fixpoint groupby {A} (l : list (string * A)) : list (string * list A) :=
  match l with
  | [] => []
  | (k, x) :: r =>
      match groupby r with
      | (k', g) :: gs =>
          if String.eqb k k' then (k, x :: g) :: gs else (k, [x]) :: (k', g) :: gs
      | [] => [(k, [x])]
      end
  end.

Definition get_seed (seed : option Z) (x : option Z) : option Z :=
  match seed with
  | Some s => Some s
  | None => x
  end.

(** The groups [load_data] hands to [consolidate], in order. *)
Definition resource_groups (all : list (gmap string val))
    : result (list (list (gmap string val))) :=
  let resources := filter (fun obj => truthy (obj !! "matrix") = true) all in
  let* keyed := mapE (fun obj => let* k := fltr obj in ret (k, obj)) resources in
  ret (map snd (groupby (sort_by_key keyed))).

(** [load_data]; [ref] is the place the new Indexer takes in the loader's
    [sample_indexers].  The result is the section and the Indexer. *)
Definition load_data `{RandomState} (d : directory) (seed : option Z) (ref : nat)
    : result (section * Indexer) :=
  let metadata := datapackage d in
  let* name := metadata_get (m_name metadata) "name" in
  let* id := metadata_get (m_id metadata) "id" in
  let* mseed := metadata_get (m_seed metadata) "seed" in
  let ix := Indexer_init (get_seed seed mseed) in
  let* all := metadata_get (m_resources metadata) "resources" in
  let* groups := resource_groups all in
  let* md := mapE (consolidate d) groups in
  let parameter_resources := filter (fun obj => truthy (obj !! "names") = true) all in
  let pm :=
    match parameter_resources with
    | [] => None
    | _ => Some (path d, parameter_resources, name)
    end in
  ret ({| s_name := name; s_id := id; s_seed := mseed; matrix_data := md;
          parameter_metadata := pm; indexer := ref |}, ix).

(** One turn of the loop of [__init__]. *)
Definition add_section (self : PackagesDataLoader) (sec : section) (ix : Indexer)
    : PackagesDataLoader :=
  let has_md := match matrix_data sec with [] => false | _ => true end in
  {| seed := seed self;
     data := if has_md then data self ++ [sec] else data self;
     parameter_metadata_list :=
       match parameter_metadata sec with
       | Some pm => parameter_metadata_list self ++ [pm]
       | None => parameter_metadata_list self
       end;
     sample_indexers := sample_indexers self ++ [ix];
     msi := if has_md then msi self ++ [indexer sec] else msi self;
     psi :=
       match parameter_metadata sec with
       | Some _ => psi self ++ [indexer sec]
       | None => psi self
       end;
     empty := empty self |}.

Fixpoint init_loop `{RandomState} (dirpaths : list directory) (self : PackagesDataLoader)
    : result PackagesDataLoader :=
  match dirpaths with
  | [] => ret self
  | d :: r =>
      let* p := load_data d (seed self) (length (sample_indexers self)) in
      init_loop r (add_section self p.1 p.2)
  end.

(** [PackagesDataLoader(dirpaths, seed)] *)
Definition init `{RandomState} (dirpaths : option (list directory)) (seed0 : option Z)
    : result PackagesDataLoader :=
  let self := {| seed := seed0; data := []; parameter_metadata_list := [];
                 sample_indexers := []; msi := []; psi := []; empty := true |} in
  let* self := init_loop (default [] dirpaths) self in
  ret {| seed := seed self; data := data self;
         parameter_metadata_list := parameter_metadata_list self;
         sample_indexers := sample_indexers self;
         msi := msi self; psi := psi self;
         empty := match data self with [] => true | _ => false end |}.

(** ** Observations used in the statements *)

(** The group [j] of the package [i] of the loader's [data]. *)
Definition elem_at (self : PackagesDataLoader) (i j : nat) : option (gmap string val) :=
  data self !! i ≫= fun obj => matrix_data obj !! j.

(** The states a loader goes through in one call of [index_arrays] per
    target of the list, the first state included. *)
Fixpoint index_states (self : PackagesDataLoader) (lcas : list target)
    : list PackagesDataLoader :=
  match lcas with
  | [] => [self]
  | lca :: r => self :: index_states (index_arrays self lca).1 r
  end.

(** None of these calls raises. *)
Fixpoint index_quiet (self : PackagesDataLoader) (lcas : list target) : Prop :=
  match lcas with
  | [] => True
  | lca :: r => (index_arrays self lca).2 = None /\ index_quiet (index_arrays self lca).1 r
  end.

(** What the group [j] of the package [i] is in each of these states. *)
Definition history (self : PackagesDataLoader) (lcas : list target) (i j : nat)
    : list (option (gmap string val)) :=
  map (fun s => elem_at s i j) (index_states self lcas).

(** The loader after [n] calls of [update_sample_indices]. *)
Definition advance `{RandomState} (n : nat) (self : PackagesDataLoader) : PackagesDataLoader :=
  Nat.iter n update_sample_indices self.

(** [lca] has no attribute [n]. *)
Definition lacks (lca : target) (n : string) : Prop :=
  getattr lca (VStr n) = raise (AttributeError n).

(** The position a dictionary gives to each identifier of a column. *)
Definition resolve (d : gmap Z Z) (ids : list Z) : list Z :=
  map (fun x => default (-1) (d !! x)) ids.

(** The spec's view of a group.  One axis names the field of the raw
    identifiers, the field of the positions and the dictionary of the
    target; a ResourceGroup has a row axis, an optional column axis and the
    table of identifiers. *)
Record axis := {
  from_label : string;
  to_label : string;
  dict_name : string
}.

Record ResourceGroup := {
  rg_matrix : string;
  rg_rows : axis;
  rg_cols : option axis;
  rg_table : recarray
}.

(** [elem] holds the axis under the keys [from_key], [to_key], [dict_key]. *)
Definition has_axis (elem : gmap string val) (from_key to_key dict_key : string)
    (ax : axis) : Prop :=
  elem !! from_key = Some (VStr (from_label ax)) /\
  elem !! to_key = Some (VStr (to_label ax)) /\
  elem !! dict_key = Some (VStr (dict_name ax)).

(** [elem] is the dict of the group [g]. *)
Definition describes (g : ResourceGroup) (elem : gmap string val) : Prop :=
  elem !! "matrix" = Some (VStr (rg_matrix g)) /\
  elem !! "indices" = Some (VArray (rg_table g)) /\
  has_axis elem "row from label" "row to label" "row dict" (rg_rows g) /\
  match rg_cols g with
  | Some ax => has_axis elem "col from label" "col to label" "col dict" ax
  | None => elem !! "col dict" = None
  end.

(** The spec's resolution of one axis: each raw identifier is looked up in
    the dictionary and the position found overwrites the corresponding entry
    of the position field. *)
Definition resolve_axis (t : recarray) (ax : axis) (d : gmap Z Z) : option recarray :=
  match cols t !! from_label ax, cols t !! to_label ax with
  | Some ids, Some _ => Some (set_field t (to_label ax) (resolve d ids))
  | _, _ => None
  end.

(** The table of [g] once resolved: the rows, then the columns if the group
    declares them. *)
Definition resolved (g : ResourceGroup) (drow dcol : gmap Z Z) : option recarray :=
  match resolve_axis (rg_table g) (rg_rows g) drow with
  | Some t1 =>
      match rg_cols g with
      | Some ax => resolve_axis t1 ax dcol
      | None => Some t1
      end
  | None => None
  end.

(** The target holds the dictionaries the group names. *)
Definition dicts_present (lca : target) (g : ResourceGroup) (drow dcol : gmap Z Z) : Prop :=
  getattr lca (VStr (dict_name (rg_rows g))) = ret (ADict drow) /\
  match rg_cols g with
  | Some ax => getattr lca (VStr (dict_name ax)) = ret (ADict dcol)
  | None => True
  end.

(** The target lacks a dictionary the group names. *)
Definition dict_absent (lca : target) (g : ResourceGroup) : Prop :=
  lacks lca (dict_name (rg_rows g)) \/
  exists ax, rg_cols g = Some ax /\ lacks lca (dict_name ax).


(** The group [elem] is one [update_matrices] skips: the target lacks its
    matrix, or the filter excludes it. *)
Definition skipped (matrices : option (list string)) (lca : target)
    (elem : gmap string val) : Prop :=
  exists n, elem !! "matrix" = Some (VStr n) /\
            (lacks lca n \/ filtered_out matrices (VStr n) = true).


(** The Indexer [ix] of the directory [d] has the effective seed of the
    spec: the seed [seed0] the caller gives when there is one, and the seed
    of the manifest otherwise. *)
Definition seeded (seed0 : option Z) (d : directory) (ix : Indexer) : Prop :=
  exists mseed,
    m_seed (datapackage d) = Some mseed /\
    seed_value ix = match seed0 with Some s => Some s | None => mseed end.


(** The current index of the package [k] after [n] calls of
    [update_sample_indices]. *)
Definition index_after `{RandomState} (self : PackagesDataLoader) (k n : nat) : option Z :=
  index <$> sample_indexers (advance n self) !! k.

(** The [N] indices the package [k] goes through in [N] calls of
    [update_sample_indices], and the columns they select in a sample
    array. *)
Definition index_sequence `{RandomState} (self : PackagesDataLoader) (k N : nat)
    : list (option Z) :=
  map (index_after self k) (seq 1 N).

Definition sampled_columns `{RandomState} (store : IrregularPresamplesArray)
    (self : PackagesDataLoader) (k N : nat) : list (option (result (list Z))) :=
  map (fmap (sample store)) (index_sequence self k N).


(** The keys of the column fields, in the order [consolidate] reads them. *)
Definition col_keys : list string := ["col from label"; "col to label"; "col dict"].

(** The first of [keys] that [el] does not have. *)
Definition missing_key (keys : list string) (el : gmap string val) : option string :=
  head (filter (fun k => el !! k = None) keys).

(** [el] declares its column fields: the three keys are there and name
    strings. *)
Definition declares_cols (el : gmap string val) : Prop :=
  Forall (fun k => exists s, el !! k = Some (VStr s)) col_keys.


(** [len(self)]: the number of packages that hold matrix data. *)
Definition __len__ (self : PackagesDataLoader) : nat := length (data self).

(** The tests [if section["matrix-data"]] and
    [if section['parameter-metadata']] of [__init__]. *)
Definition has_matrix_data (sec : section) : bool :=
  match matrix_data sec with [] => false | _ => true end.

Definition has_parameters (sec : section) : bool :=
  match parameter_metadata sec with Some _ => true | None => false end.

(** [loads] lists what [load_data] returns for each directory of
    [dirpaths], the directory [k] being loaded with the reference
    [offset + k]. *)
Definition loaded `{RandomState} (seed0 : option Z) (offset : nat)
    (dirpaths : list directory) (loads : list (section * Indexer)) : Prop :=
  length loads = length dirpaths /\
  forall k d, dirpaths !! k = Some d ->
    exists p, loads !! k = Some p /\ load_data d seed0 (offset + k) = ret p.


(** The keys of the row fields, in the order [consolidate] reads them. *)
Definition row_keys : list string := ["row from label"; "row to label"; "row dict"].

(** [el] has the keys [keys], each naming a string. *)
Definition declares (keys : list string) (el : gmap string val) : Prop :=
  Forall (fun k => exists s, el !! k = Some (VStr s)) keys.


(** What indexing may change in a group: [elem'] has the entries of [elem]
    but for ['indices'] and ['indexed'], and its table has the dtype of the
    table of [elem] and the same column in every field that is not a
    position field of [elem]. *)
Definition keeps_frame (elem elem' : gmap string val) : Prop :=
  (forall k, k <> "indices" -> k <> "indexed" -> elem' !! k = elem !! k) /\
  (forall a, elem !! "indices" = Some (VArray a) ->
     exists a', elem' !! "indices" = Some (VArray a') /\
                dtype a' = dtype a /\
                forall f, elem !! "row to label" <> Some (VStr f) ->
                          elem !! "col to label" <> Some (VStr f) ->
                          cols a' !! f = cols a !! f).

(** The same for a section: only its groups may change, one for one. *)
Definition keeps_section (sec sec' : section) : Prop :=
  s_name sec' = s_name sec /\ s_id sec' = s_id sec /\ s_seed sec' = s_seed sec /\
  parameter_metadata sec' = parameter_metadata sec /\ indexer sec' = indexer sec /\
  Forall2 keeps_frame (matrix_data sec) (matrix_data sec').



(** Two lookups of one attribute name that agree but for the content of a
    matrix: both are matrices, or they are the same. *)
Definition same_kind (a b : result attr) : Prop :=
  match a, b with
  | inr (AMatrix _), inr (AMatrix _) => True
  | _, _ => a = b
  end.

(** The matrix the target holds under the name [n], when it holds one. *)
Definition matrix_of (lca : target) (n : string) : option (gmap (Z * Z) Z) :=
  match getattr lca (VStr n) with
  | inr (AMatrix m) => Some m
  | _ => None
  end.

(** All the groups of a loader. *)
Definition groups_of (self : PackagesDataLoader) : list (gmap string val) :=
  flat_map matrix_data (data self).


(** The relation between a first call of [update_matrices], which has
    reached the target [A] and ends on the target [F], and a second call
    started on [F], which has reached [B] at the same point of the loop:
    [W] lists the cells written so far.  The two targets hold the same
    attributes but for the content of the matrices; in the cells written so
    far the matrices of [B] hold what those of [A] hold, and in the others
    what those of [F] hold. *)
Definition replay (F : target) (W : list (string * (Z * Z))) (A B : target) : Prop :=
  (A = TNone <-> B = TNone) /\
  (forall n, same_kind (getattr A (VStr n)) (getattr B (VStr n))) /\
  (forall n, same_kind (getattr B (VStr n)) (getattr F (VStr n))) /\
  (forall n p mA mB, (n, p) ∈ W ->
     matrix_of A n = Some mA -> matrix_of B n = Some mB -> mA !! p = mB !! p) /\
  (forall n p mB mF, (n, p) ∉ W ->
     matrix_of B n = Some mB -> matrix_of F n = Some mF -> mB !! p = mF !! p).


(** ** A package and a target to run the loader on

    The package of the test suite: three records [(1, 1)], [(1, 2)],
    [(2, 3)], whose position fields start as copies of the identifiers, and
    four samples of each. *)
Module Example.

Definition gen : RandomState := fun seed n => (default 0 seed + Z.of_nat n) mod 4.

Definition indices : recarray :=
  {| dtype := [("f1", "u4"); ("f2", "u4"); ("f3", "u4"); ("f4", "u4")];
     cols := {[ "f1" := [1; 1; 2]; "f2" := [1; 2; 3];
                "f3" := [1; 1; 2]; "f4" := [1; 2; 3] ]} |}.

Definition samples : list (list Z) :=
  [[100; 101; 102; 103]; [200; 201; 202; 203]; [300; 301; 302; 303]].

Definition resource : gmap string val :=
  {[ "type" := VStr "mock"; "matrix" := VStr "matrix";
     "row from label" := VStr "f1"; "row to label" := VStr "f3";
     "row dict" := VStr "row_dict";
     "col from label" := VStr "f2"; "col to label" := VStr "f4";
     "col dict" := VStr "col_dict";
     "indices" := VFile "indices.npy" [3];
     "samples" := VFile "samples.npy" [3; 4];
     "format" := VStr "npy" ]}.

Definition package : directory :=
  {| path := "package";
     datapackage := {| m_name := Some (VStr "mock"); m_id := Some (VStr "one");
                       m_seed := Some (Some 42); m_resources := Some [resource] |};
     files := {[ "indices.npy" := FIndices indices; "samples.npy" := FSamples samples ]} |}.

Definition row_dict : gmap Z Z := {[ 0 := 0; 1 := 2; 2 := 4; 3 := 6; 4 := 8 ]}.
Definition col_dict : gmap Z Z := {[ 0 := 0; 1 := 3; 2 := 6; 3 := 9; 4 := 12 ]}.

Definition mock_attrs : gmap string attr :=
  {[ "matrix" := AMatrix ∅; "row_dict" := ADict row_dict;
     "col_dict" := ADict col_dict ]}.

Definition MockLCA : target := TObj mock_attrs.

(** The target before its dictionaries are built. *)
Definition BareLCA : target := TObj {[ "matrix" := AMatrix ∅ ]}.

(** The target of [test_update_matrices_missing_matrix]. *)
Definition WrongLCA : target :=
  TObj {[ "wrong" := AMatrix ∅; "row_dict" := ADict row_dict;
          "col_dict" := ADict col_dict ]}.

(** The group the loader holds for the package. *)
Definition elem : gmap string val :=
  {[ "type" := VStr "mock"; "matrix" := VStr "matrix";
     "row from label" := VStr "f1"; "row to label" := VStr "f3";
     "row dict" := VStr "row_dict";
     "col from label" := VStr "f2"; "col to label" := VStr "f4";
     "col dict" := VStr "col_dict";
     "indices" := VArray indices;
     "samples" := VSamples {| segments := [samples] |} ]}.

Definition the_section : section :=
  {| s_name := VStr "mock"; s_id := VStr "one"; s_seed := Some 42;
     matrix_data := [elem]; parameter_metadata := None; indexer := 0%nat |}.

Definition the_indexer : Indexer :=
  {| seed_value := Some 42; count := 0; index := 2 |}.

Definition loader : PackagesDataLoader :=
  {| seed := None;
     data := [the_section];
     parameter_metadata_list := [];
     sample_indexers := [the_indexer];
     msi := [0%nat]; psi := []; empty := false |}.

(** The target of [test_index_arrays_already_indexed] after its
    dictionaries have changed. *)
Definition ZeroLCA : target :=
  TObj {[ "matrix" := AMatrix ∅;
          "row_dict" := ADict {[ 0 := 0; 1 := 0; 2 := 0; 3 := 0; 4 := 0 ]};
          "col_dict" := ADict {[ 0 := 0; 1 := 0; 2 := 0; 3 := 0; 4 := 0 ]} ]}.

(** The spec's view of [elem]. *)
Definition group : ResourceGroup :=
  {| rg_matrix := "matrix";
     rg_rows := {| from_label := "f1"; to_label := "f3"; dict_name := "row_dict" |};
     rg_cols := Some {| from_label := "f2"; to_label := "f4"; dict_name := "col_dict" |};
     rg_table := indices |}.

(** The group once indexed against [MockLCA]. *)
Definition indexed_indices : recarray :=
  {| dtype := [("f1", "u4"); ("f2", "u4"); ("f3", "u4"); ("f4", "u4")];
     cols := {[ "f1" := [1; 1; 2]; "f2" := [1; 2; 3];
                "f3" := [2; 2; 4]; "f4" := [3; 6; 9] ]} |}.

Definition indexed_elem : gmap string val :=
  <["indexed" := VBool true]> (<["indices" := VArray indexed_indices]> elem).


Definition indexed_section : section := set_matrix_data the_section [indexed_elem].

Definition indexed_loader : PackagesDataLoader := set_data loader [indexed_section].

(** Two resources of one type that name different matrices, and a package
    that declares them. *)
Definition resource_a : gmap string val := <["matrix" := VStr "a"]> resource.
Definition resource_b : gmap string val := <["matrix" := VStr "b"]> resource.

Definition conflicting_package : directory :=
  {| path := "conflicting";
     datapackage := {| m_name := Some (VStr "mock"); m_id := Some (VStr "two");
                       m_seed := Some (Some 7);
                       m_resources := Some [resource_a; resource_b] |};
     files := files package |}.

(** A package with no resource at all. *)
Definition empty_package : directory :=
  {| path := "empty";
     datapackage := {| m_name := Some (VStr "foo"); m_id := Some (VStr "one");
                       m_seed := Some None; m_resources := Some [] |};
     files := ∅ |}.

(** The loader of the package built with the seed 5 in place of the seed
    of the manifest. *)
Definition override_indexer : Indexer :=
  {| seed_value := Some 5; count := 0; index := 1 |}.

Definition override_loader : PackagesDataLoader :=
  {| seed := Some 5;
     data := [the_section];
     parameter_metadata_list := [];
     sample_indexers := [override_indexer];
     msi := [0%nat]; psi := []; empty := false |}.

(** The loader of the empty package and the package, built with the seed
    42 given by the caller. *)
Definition second_loader : PackagesDataLoader :=
  {| seed := Some 42;
     data := [ {| s_name := VStr "mock"; s_id := VStr "one"; s_seed := Some 42;
                  matrix_data := [elem]; parameter_metadata := None;
                  indexer := 1%nat |} ];
     parameter_metadata_list := [];
     sample_indexers := [the_indexer; the_indexer];
     msi := [1%nat]; psi := []; empty := false |}.

(** A resource without column fields, and one that keeps a column label
    but names no column dictionary. *)
Definition diagonal_resource : gmap string val :=
  delete "col dict" (delete "col to label" (delete "col from label" resource)).

Definition stray_label_resource : gmap string val :=
  <["col from label" := VStr "other"]> diagonal_resource.

(** The technosphere package of [test_update_matrices_technosphere]: the
    exchanges (1, 1) of type production, (1, 2) of type technosphere and
    (2, 3) of type substitution, with one sample of each. *)
Definition technosphere_elem : gmap string val :=
  {[ "type" := VStr "technosphere"; "matrix" := VStr "technosphere_matrix";
     "row from label" := VStr "input"; "row to label" := VStr "row";
     "row dict" := VStr "_product_dict";
     "col from label" := VStr "output"; "col to label" := VStr "col";
     "col dict" := VStr "_activity_dict";
     "indices" :=
       VArray {| dtype := [("input", "u4"); ("output", "u4"); ("row", "u4");
                           ("col", "u4"); ("type", "u1")];
                 cols := {[ "input" := [1; 1; 2]; "output" := [1; 2; 3];
                            "row" := [1; 1; 2]; "col" := [1; 2; 3];
                            "type" := [0; 1; 3] ]} |};
     "samples" := VSamples {| segments := [[[10]; [11]; [12]]] |} ]}.

(** The package of [test_update_matrices_one_dimensional]: the flows 1, 3
    and 4, without column fields. *)
Definition cf_elem : gmap string val :=
  {[ "type" := VStr "cf"; "matrix" := VStr "characterization_matrix";
     "row from label" := VStr "flow"; "row to label" := VStr "row";
     "row dict" := VStr "_biosphere_dict";
     "indices" :=
       VArray {| dtype := [("flow", "u4"); ("row", "u4")];
                 cols := {[ "flow" := [1; 3; 4]; "row" := [1; 3; 4] ]} |};
     "samples" := VSamples {| segments := [[[10]; [11]; [12]]] |} ]}.

Definition loader_of (elem : gmap string val) : PackagesDataLoader :=
  {| seed := None;
     data := [ {| s_name := VStr "mock"; s_id := VStr "one"; s_seed := None;
                  matrix_data := [elem]; parameter_metadata := None;
                  indexer := 0%nat |} ];
     parameter_metadata_list := [];
     sample_indexers := [ {| seed_value := None; count := 0; index := 0 |} ];
     msi := [0%nat]; psi := []; empty := false |}.

Definition positions : gmap Z Z := {[ 1 := 0; 2 := 1; 3 := 2; 4 := 3; 5 := 4; 6 := 5 ]}.

Definition LCA : target :=
  TObj {[ "technosphere_matrix" := AMatrix ∅; "characterization_matrix" := AMatrix ∅;
          "_activity_dict" := ADict positions; "_product_dict" := ADict positions;
          "_biosphere_dict" := ADict positions ]}.

(** The matrix of the target after [index_arrays] and [update_matrices]. *)
Definition index_then_update (elem : gmap string val) (matrix : string)
    : option (gmap (Z * Z) Z) * option Error * option Error :=
  let (self, e1) := index_arrays (loader_of elem) LCA in
  let (lca, e2) := update_matrices self LCA None in
  (match getattr lca (VStr matrix) with
   | inr (AMatrix m) => Some m
   | _ => None
   end, e1, e2).

(** Resources of the type of [resource] that disagree with it on the row
    dictionary, on a column label, and on the layout of the identifier
    table, and a package that holds the two identifier tables. *)
Definition resource_other_rows : gmap string val :=
  <["row dict" := VStr "other_dict"]> resource.

Definition resource_other_cols : gmap string val :=
  <["col to label" := VStr "f5"]> resource.

Definition resource_other_indices : gmap string val :=
  <["indices" := VFile "wide.npy" [3]]> resource.

Definition wide_indices : recarray :=
  {| dtype := [("f1", "u8"); ("f2", "u8"); ("f3", "u8"); ("f4", "u8")];
     cols := cols indices |}.

Definition two_tables_package : directory :=
  {| path := "two tables";
     datapackage := {| m_name := Some (VStr "mock"); m_id := Some (VStr "three");
                       m_seed := Some (Some 1);
                       m_resources := Some [resource; resource_other_indices] |};
     files := <["wide.npy" := FIndices wide_indices]> (files package) |}.

(** A second resource of the same data, in another format. *)
Definition resource_copy : gmap string val :=
  <["format" := VStr "csv"]> (<["profile" := VStr "tabular"]> resource).

(** What [consolidate] returns for the resource and its copy. *)
Definition doubled_elem : gmap string val :=
  <["indices" :=
      VArray {| dtype := dtype indices;
                cols := {[ "f1" := [1; 1; 2; 1; 1; 2]; "f2" := [1; 2; 3; 1; 2; 3];
                           "f3" := [1; 1; 2; 1; 1; 2]; "f4" := [1; 2; 3; 1; 2; 3] ]} |}]>
    (<["samples" := VSamples {| segments := [samples; samples] |}]> elem).

(** The resources of a manifest: two technosphere resources around a
    parameter resource and a biosphere resource. *)
Definition technosphere_1 : gmap string val := <["type" := VStr "technosphere"]> resource.
Definition technosphere_2 : gmap string val := <["type" := VStr "technosphere"]> resource_copy.
Definition biosphere_1 : gmap string val := <["type" := VStr "biosphere"]> resource.
Definition parameters_1 : gmap string val := {[ "names" := VNames ["a"; "b"] ]}.

Definition manifest_resources : list (gmap string val) :=
  [technosphere_1; parameters_1; biosphere_1; technosphere_2].

(** The directory [test_functionality_with_empty] writes: its manifest has a
    name, an id and no resources, and no seed. *)
Definition unseeded_package : directory :=
  {| path := "unseeded";
     datapackage := {| m_name := Some (VStr "foo"); m_id := Some (VStr "one");
                       m_seed := None; m_resources := Some [] |};
     files := ∅ |}.

(** A target whose column dictionary is there but is not a dictionary. *)
Definition BrokenLCA : target :=
  TObj {[ "matrix" := AMatrix ∅; "row_dict" := ADict row_dict; "col_dict" := AOther ]}.

(** The table with its rows resolved and its columns not. *)
Definition rows_only_indices : recarray :=
  {| dtype := dtype indices;
     cols := {[ "f1" := [1; 1; 2]; "f2" := [1; 2; 3];
                "f3" := [2; 2; 4]; "f4" := [1; 2; 3] ]} |}.

(** The loader of [test_functionality_with_empty]. *)
Definition empty_loader : PackagesDataLoader :=
  {| seed := None; data := []; parameter_metadata_list := [];
     sample_indexers := [ {| seed_value := None; count := 0; index := 0 |} ];
     msi := []; psi := []; empty := true |}.

End Example.

(** * Properties *)

(** ** The two loops *)

Lemma for_each_length {A} (body : A -> A * option Error) (l : list A) :
  length (for_each body l).1 = length l.
Proof.
  induction l as [|x r IH]; simpl; [done|].
  destruct (body x) as [x' [e|]]; simpl; [done|].
  destruct (for_each body r) as [r' e']; simpl in *. by rewrite IH.
Qed.

(** An element the body leaves alone is the same after the loop, wherever the
    loop stops. *)
Lemma for_each_fixed {A} (body : A -> A * option Error) (l : list A) (k : nat) (x : A) :
  l !! k = Some x -> (body x).1 = x -> (for_each body l).1 !! k = Some x.
Proof.
  revert k. induction l as [|y r IH]; intros k Hk Hfix; [done|].
  simpl. destruct k as [|k]; simpl in Hk.
  - injection Hk as ->.
    destruct (body x) as [x' [e|]] eqn:Hb; simpl in *; subst x'; [done|].
    by destruct (for_each body r).
  - destruct (body y) as [y' [e|]]; simpl; [done|].
    specialize (IH k Hk Hfix). by destruct (for_each body r).
Qed.

(** A loop that ends without an exception has run the body on every
    element. *)
Lemma for_each_done {A} (body : A -> A * option Error) (l : list A) (k : nat) (x : A) :
  (for_each body l).2 = None -> l !! k = Some x ->
  body x = ((body x).1, None) /\ (for_each body l).1 !! k = Some (body x).1.
Proof.
  revert k. induction l as [|y r IH]; intros k Hnone Hk; [done|].
  simpl in *. destruct (body y) as [y' [e|]] eqn:Hb; simpl in *; [done|].
  destruct (for_each body r) as [r' e'] eqn:Hr; simpl in *.
  destruct k as [|k]; simpl in *.
  - injection Hk as <-. by rewrite Hb.
  - by apply IH.
Qed.


(** A loop whose body leaves the state alone leaves it alone. *)
Lemma fold_each_skip {A S} (body : A -> S -> S * option Error) (l : list A) (st : S) :
  Forall (fun x => body x st = (st, None)) l -> fold_each body l st = (st, None).
Proof.
  induction 1 as [|x r Hx _ IH]; simpl; [done|]. by rewrite Hx.
Qed.

(** Wherever the loop stops, an element is as it was or as the body left
    it. *)
Lemma for_each_lookup {A} (body : A -> A * option Error) (l : list A) (k : nat) (x : A) :
  l !! k = Some x ->
  (for_each body l).1 !! k = Some x \/ (for_each body l).1 !! k = Some (body x).1.
Proof.
  revert k. induction l as [|y r IH]; intros k Hk; [done|].
  simpl. destruct k as [|k]; simpl in Hk.
  - injection Hk as ->.
    destruct (body x) as [x' [e|]] eqn:Hb; simpl; [by right|].
    destruct (for_each body r); simpl. by right.
  - destruct (body y) as [y' [e|]]; simpl; [by left|].
    specialize (IH k Hk). by destruct (for_each body r).
Qed.

(** ** The runs of the test suite *)

(** [test_index_arrays]: the position fields after indexing. *)
Example test_index_arrays :
  index_arrays Example.loader Example.MockLCA = (Example.indexed_loader, None).
Proof. vm_compute. reflexivity. Qed.

(** [test_update_matrices_technosphere]: the value of the consumed exchange
    changes sign. *)
Example test_update_matrices_technosphere :
  Example.index_then_update Example.technosphere_elem "technosphere_matrix"
  = (Some {[ (0, 0) := 10; (0, 1) := -11; (1, 2) := 12 ]}, None, None).
Proof. vm_compute. reflexivity. Qed.

(** [test_update_matrices_one_dimensional]: the values go to the diagonal. *)
Example test_update_matrices_one_dimensional :
  Example.index_then_update Example.cf_elem "characterization_matrix"
  = (Some {[ (0, 0) := 10; (2, 2) := 11; (3, 3) := 12 ]}, None, None).
Proof. vm_compute. reflexivity. Qed.

(** ** Indexing *)

Lemma index_elem_indexed (lca : target) (elem : gmap string val) :
  truthy (elem !! "indexed") = true -> index_elem lca elem = (elem, None).
Proof. intros H. unfold index_elem. by rewrite H. Qed.

(** A step that changes a group and raises nothing has set its flag. *)
Lemma index_elem_marks (lca : target) (elem elem' : gmap string val) :
  index_elem lca elem = (elem', None) ->
  elem' = elem \/ truthy (elem' !! "indexed") = true.
Proof.
  unfold index_elem.
  destruct (truthy (elem !! "indexed")); [intros [= <-]; by left|].
  destruct (dict_missing lca elem "row dict") as [e|[|]]; [done|intros [= <-]; by left|].
  destruct (if contains elem "col dict" then _ else _) as [e|[|]];
    [done|intros [= <-]; by left|].
  destruct (index_axis lca elem _ _ _) as [e|elem1]; [done|].
  destruct (if contains elem1 "col dict" then _ else _) as [e|elem2]; [done|].
  intros [= <-]. right. by rewrite lookup_insert_eq.
Qed.

Lemma index_section_lookup (lca : target) (obj : section) (j : nat) (elem : gmap string val) :
  matrix_data obj !! j = Some elem ->
  (index_elem lca elem).1 = elem ->
  matrix_data (index_section lca obj).1 !! j = Some elem.
Proof.
  intros Hj Hfix. unfold index_section.
  pose proof (for_each_fixed (index_elem lca) (matrix_data obj) j elem Hj Hfix) as H.
  by destruct (for_each (index_elem lca) (matrix_data obj)).
Qed.

(** A group that one step of the loop leaves alone is the same after a call
    of [index_arrays], whatever the call does to the other groups. *)
Lemma index_arrays_fixed (self : PackagesDataLoader) (lca : target) (i j : nat)
    (elem : gmap string val) :
  elem_at self i j = Some elem ->
  (index_elem lca elem).1 = elem ->
  elem_at (index_arrays self lca).1 i j = Some elem.
Proof.
  intros Hat Hfix. unfold index_arrays, nonempty.
  destruct (empty self); [done|].
  unfold elem_at in *.
  destruct (data self !! i) as [obj|] eqn:Hi; [|done]. simpl in Hat.
  pose proof (for_each_lookup (index_section lca) (data self) i obj Hi) as H.
  destruct (for_each (index_section lca) (data self)) as [d e]; simpl in *.
  destruct H as [-> | ->]; simpl; [done|].
  by apply index_section_lookup.
Qed.

(** When a call of [index_arrays] on a loader that is not empty returns, the
    step of each group has raised nothing and the group is as the step
    leaves it. *)
Lemma index_arrays_returns (self : PackagesDataLoader) (lca : target) (i j : nat)
    (elem : gmap string val) :
  empty self = false ->
  (index_arrays self lca).2 = None ->
  elem_at self i j = Some elem ->
  index_elem lca elem = ((index_elem lca elem).1, None) /\
  elem_at (index_arrays self lca).1 i j = Some (index_elem lca elem).1.
Proof.
  unfold index_arrays, nonempty, elem_at. intros -> Hnone Hat.
  destruct (data self !! i) as [obj|] eqn:Hi; [|done]. simpl in Hat.
  destruct (for_each (index_section lca) (data self)) as [d e] eqn:Hd.
  simpl in *. subst e.
  destruct (for_each_done (index_section lca) (data self) i obj) as [Hb Hl];
    [by rewrite Hd | done |].
  rewrite Hd in Hl. simpl in Hl. rewrite Hl. simpl.
  unfold index_section in *.
  destruct (for_each (index_elem lca) (matrix_data obj)) as [md e] eqn:Hmd.
  simpl in *. injection Hb as ->.
  destruct (for_each_done (index_elem lca) (matrix_data obj) j elem) as [Hstep Hl'];
    [by rewrite Hmd | done |].
  by rewrite Hmd in Hl'.
Qed.

(** In a call that returns, a group stays as it is or gets its flag. *)
Lemma index_arrays_quiet_step (self : PackagesDataLoader) (lca : target) (i j : nat)
    (elem : gmap string val) :
  (index_arrays self lca).2 = None ->
  elem_at self i j = Some elem ->
  exists elem', elem_at (index_arrays self lca).1 i j = Some elem' /\
                (elem' = elem \/ truthy (elem' !! "indexed") = true).
Proof.
  intros Hnone Hat. destruct (empty self) eqn:Hempty.
  - exists elem. split; [|by left].
    unfold index_arrays, nonempty. by rewrite Hempty.
  - destruct (index_arrays_returns self lca i j elem Hempty Hnone Hat) as [Hstep Hat'].
    exists (index_elem lca elem).1. split; [done|].
    by apply (index_elem_marks lca).
Qed.

(** A group whose flag is set is the same in every later state. *)
Lemma history_indexed (self : PackagesDataLoader) (lcas : list target) (i j : nat)
    (elem : gmap string val) :
  elem_at self i j = Some elem ->
  truthy (elem !! "indexed") = true ->
  history self lcas i j = replicate (S (length lcas)) (Some elem).
Proof.
  intros Hat Hidx. unfold history. revert self Hat.
  induction lcas as [|lca lcas IH]; intros self Hat; simpl; [by rewrite Hat|].
  rewrite Hat. f_equal. apply IH. apply index_arrays_fixed; [done|].
  by rewrite index_elem_indexed.
Qed.

(** C1. Indexing is one-shot.  A group whose flag ['indexed'] is set is
    skipped by every later call of [index_arrays]: whatever the targets of
    the later calls hold, and whether or not those calls raise, the group,
    and so its resolved positions, is the same in every later state.  And
    over any run of calls that return, a group changes at most once: it is
    as it was at first up to some call, and as that call left it, with its
    flag set, from then on. *)
Theorem index_arrays_one_shot (self : PackagesDataLoader) (i j : nat)
    (elem : gmap string val) (lcas : list target) :
  elem_at self i j = Some elem ->
  (truthy (elem !! "indexed") = true ->
   history self lcas i j = replicate (S (length lcas)) (Some elem)) /\
  (index_quiet self lcas ->
   exists (k : nat) (elem1 : gmap string val),
     history self lcas i j
     = replicate (S k) (Some elem) ++ replicate (length lcas - k) (Some elem1) /\
     (elem1 = elem \/ truthy (elem1 !! "indexed") = true)).
Proof.
  intros Hat. split; [by apply history_indexed|].
  revert self Hat. induction lcas as [|lca lcas IH]; intros self Hat Hquiet.
  - exists 0%nat, elem. unfold history. simpl. rewrite Hat. by split; [|left].
  - destruct Hquiet as [Hnone Hquiet].
    destruct (index_arrays_quiet_step self lca i j elem Hnone Hat)
      as (elem' & Hat' & [-> | Hidx]).
    + destruct (IH _ Hat' Hquiet) as (k & elem1 & Hhist & Helem1).
      exists (S k), elem1. split; [|done].
      unfold history in *. simpl. by rewrite Hat, Hhist.
    + exists 0%nat, elem'. split; [|by right].
      pose proof (history_indexed _ lcas i j elem' Hat' Hidx) as Hhist.
      unfold history in *. simpl. by rewrite Hat, Hhist.
Qed.

Lemma index_arrays_one_shot_witness :
  history Example.indexed_loader [Example.ZeroLCA; Example.BareLCA; TNone] 0 0
  = replicate 4 (Some Example.indexed_elem) /\
  exists (k : nat) (elem1 : gmap string val),
    history Example.loader [Example.BareLCA; Example.MockLCA; Example.ZeroLCA] 0 0
    = replicate (S k) (Some Example.elem) ++ replicate (3 - k) (Some elem1).
Proof.
  split.
  - apply (index_arrays_one_shot Example.indexed_loader 0 0 Example.indexed_elem
             [Example.ZeroLCA; Example.BareLCA; TNone]); reflexivity.
  - destruct (proj2 (index_arrays_one_shot Example.loader 0 0 Example.elem
                       [Example.BareLCA; Example.MockLCA; Example.ZeroLCA] eq_refl))
      as (k & elem1 & Hhist & _).
    + repeat split; vm_compute; reflexivity.
    + by exists k, elem1.
Defined.

Lemma getattr_str (lca : target) (n : string) :
  (exists a, getattr lca (VStr n) = ret a) \/ lacks lca n.
Proof.
  unfold lacks. destruct lca as [|attrs]; simpl; [by right|].
  destruct (attrs !! n); [left; eauto | by right].
Qed.

Lemma dict_missing_lacks (lca : target) (elem : gmap string val) (k n : string) :
  elem !! k = Some (VStr n) -> lacks lca n -> dict_missing lca elem k = ret true.
Proof.
  intros Hk Hl. unfold dict_missing, getitem, hasattr. rewrite Hk.
  cbn -[getattr]. unfold lacks in Hl. by rewrite Hl.
Qed.

Lemma dict_missing_present (lca : target) (elem : gmap string val) (k n : string) (a : attr) :
  elem !! k = Some (VStr n) -> getattr lca (VStr n) = ret a ->
  dict_missing lca elem k = ret false.
Proof.
  intros Hk Ha. unfold dict_missing, getitem, hasattr. rewrite Hk.
  cbn -[getattr]. by rewrite Ha.
Qed.

Lemma contains_Some (elem : gmap string val) (k : string) (v : val) :
  elem !! k = Some v -> contains elem k = true.
Proof. intros H. unfold contains. rewrite H. by apply bool_decide_eq_true. Qed.

Lemma contains_None (elem : gmap string val) (k : string) :
  elem !! k = None -> contains elem k = false.
Proof.
  intros H. unfold contains. rewrite H. apply bool_decide_eq_false.
  by intros [? ?].
Qed.

(** The gate of [index_elem]: a group that names a dictionary the target
    lacks is left as it is, and nothing is raised. *)
Lemma index_elem_gate (lca : target) (elem : gmap string val) (g : ResourceGroup) :
  describes g elem -> dict_absent lca g -> index_elem lca elem = (elem, None).
Proof.
  intros (_ & _ & (_ & _ & Hrd) & Hcols) Habs. unfold index_elem.
  destruct (truthy (elem !! "indexed")); [done|].
  destruct (getattr_str lca (dict_name (rg_rows g))) as [[a Ha]|Hl].
  - rewrite (dict_missing_present _ _ _ _ _ Hrd Ha).
    destruct Habs as [Hl|(ax & Hax & Hl)].
    + unfold lacks in Hl. rewrite Ha in Hl. discriminate Hl.
    + rewrite Hax in Hcols. destruct Hcols as (_ & _ & Hcd).
      rewrite (contains_Some _ _ _ Hcd).
      by rewrite (dict_missing_lacks _ _ _ _ Hcd Hl).
  - by rewrite (dict_missing_lacks _ _ _ _ Hrd Hl).
Qed.

(** One call of [index_with_arrays] on a described axis. *)
Lemma index_axis_resolves (lca : target) (elem : gmap string val) (t t' : recarray)
    (fk tk dk : string) (ax : axis) (d : gmap Z Z) :
  elem !! "indices" = Some (VArray t) ->
  has_axis elem fk tk dk ax ->
  getattr lca (VStr (dict_name ax)) = ret (ADict d) ->
  resolve_axis t ax d = Some t' ->
  index_axis lca elem fk tk dk = ret (<["indices" := VArray t']> elem).
Proof.
  intros Hind (Hf & Ht & Hd) Hattr Hres.
  unfold resolve_axis in Hres.
  destruct (cols t !! from_label ax) as [ids|] eqn:Hids; [|done].
  destruct (cols t !! to_label ax) as [old|] eqn:Hold; [|done].
  injection Hres as <-.
  unfold index_axis, getitem. rewrite Hind, Hf, Ht, Hd. cbn -[getattr].
  unfold field. rewrite Hids, Hold. cbn -[getattr]. rewrite Hattr. reflexivity.
Qed.

Lemma has_axis_insert (elem : gmap string val) (fk tk dk k : string) (v : val) (ax : axis) :
  k <> fk -> k <> tk -> k <> dk ->
  has_axis elem fk tk dk ax -> has_axis (<[k := v]> elem) fk tk dk ax.
Proof.
  intros ? ? ? (? & ? & ?). unfold has_axis.
  by rewrite !lookup_insert_ne.
Qed.

(** The step of the loop on a group whose dictionaries are there. *)
Lemma index_elem_resolves (lca : target) (elem : gmap string val) (g : ResourceGroup)
    (drow dcol : gmap Z Z) (t' : recarray) :
  truthy (elem !! "indexed") = false ->
  describes g elem ->
  dicts_present lca g drow dcol ->
  resolved g drow dcol = Some t' ->
  index_elem lca elem
  = (<["indexed" := VBool true]> (<["indices" := VArray t']> elem), None).
Proof.
  intros Hidx (_ & Hind & Hrows & Hcols) (Hdr & Hdc) Hres.
  unfold resolved in Hres.
  destruct (resolve_axis (rg_table g) (rg_rows g) drow) as [t1|] eqn:H1; [|done].
  unfold index_elem. rewrite Hidx.
  pose proof Hrows as (_ & _ & Hrd).
  rewrite (dict_missing_present _ _ _ _ _ Hrd Hdr).
  rewrite (index_axis_resolves _ _ _ _ _ _ _ _ _ Hind Hrows Hdr H1).
  cbv beta iota delta [ret].
  destruct (rg_cols g) as [ax|].
  - pose proof Hcols as (_ & _ & Hcd).
    rewrite (contains_Some _ _ _ Hcd).
    rewrite (dict_missing_present _ _ _ _ _ Hcd Hdc).
    cbv beta iota delta [ret].
    assert (Hcd1 : (<["indices" := VArray t1]> elem) !! "col dict"
                   = Some (VStr (dict_name ax))) by by rewrite lookup_insert_ne.
    rewrite (contains_Some _ _ _ Hcd1).
    erewrite index_axis_resolves;
      [ | apply lookup_insert_eq | apply has_axis_insert; [done..|exact Hcols]
        | exact Hdc | exact Hres ].
    cbv beta iota delta [ret]. by rewrite insert_insert_eq.
  - rewrite (contains_None _ _ Hcols).
    assert (Hcd1 : (<["indices" := VArray t1]> elem) !! "col dict" = None)
      by by rewrite lookup_insert_ne.
    rewrite (contains_None _ _ Hcd1). cbv beta iota delta [ret].
    by injection Hres as <-.
Qed.

(** C2. Resolution gating.  A group that is not indexed and names a row
    dictionary the target lacks, or declares column fields and names a
    column dictionary the target lacks, is left as it is by [index_arrays]:
    its step raises nothing, and its flag and its identifier table are
    unchanged after the call.  On a later call with a target that holds the
    dictionaries the group names, the step resolves the table as the spec
    says and sets the flag; when that call returns, the loader holds the
    resolved group. *)
Theorem index_arrays_gating (self : PackagesDataLoader) (lca : target) (i j : nat)
    (elem : gmap string val) (g : ResourceGroup) :
  elem_at self i j = Some elem ->
  truthy (elem !! "indexed") = false ->
  describes g elem ->
  dict_absent lca g ->
  index_elem lca elem = (elem, None) /\
  elem_at (index_arrays self lca).1 i j = Some elem /\
  forall (self' : PackagesDataLoader) (lca' : target) (drow dcol : gmap Z Z)
         (t' : recarray),
    elem_at self' i j = Some elem ->
    dicts_present lca' g drow dcol ->
    resolved g drow dcol = Some t' ->
    let elem' := <["indexed" := VBool true]> (<["indices" := VArray t']> elem) in
    index_elem lca' elem = (elem', None) /\
    (empty self' = false -> (index_arrays self' lca').2 = None ->
     elem_at (index_arrays self' lca').1 i j = Some elem').
Proof.
  intros Hat Hidx Hdesc Habs.
  pose proof (index_elem_gate lca elem g Hdesc Habs) as Hgate.
  split; [done|]. split.
  - apply index_arrays_fixed; [done|]. by rewrite Hgate.
  - intros self' lca' drow dcol t' Hat' Hpres Hres elem'.
    pose proof (index_elem_resolves lca' elem g drow dcol t' Hidx Hdesc Hpres Hres) as Hstep.
    split; [done|]. intros Hne Hnone.
    destruct (index_arrays_returns self' lca' i j elem Hne Hnone Hat') as [_ ->].
    by rewrite Hstep.
Qed.

Lemma index_arrays_gating_witness :
  index_elem Example.BareLCA Example.elem = (Example.elem, None) /\
  elem_at (index_arrays Example.loader Example.BareLCA).1 0 0 = Some Example.elem /\
  index_elem Example.MockLCA Example.elem = (Example.indexed_elem, None) /\
  elem_at (index_arrays (index_arrays Example.loader Example.BareLCA).1
             Example.MockLCA).1 0 0
  = Some Example.indexed_elem.
Proof.
  assert (Hdesc : describes Example.group Example.elem)
    by (repeat split; reflexivity).
  assert (Habs : dict_absent Example.BareLCA Example.group)
    by (left; reflexivity).
  destruct (index_arrays_gating Example.loader Example.BareLCA 0 0 Example.elem
              Example.group eq_refl eq_refl Hdesc Habs) as (Hstep & Hat & Hlater).
  split; [exact Hstep|]. split; [exact Hat|].
  assert (Hpres : dicts_present Example.MockLCA Example.group
                    Example.row_dict Example.col_dict)
    by (split; reflexivity).
  assert (Hres : resolved Example.group Example.row_dict Example.col_dict
                 = Some Example.indexed_indices)
    by (vm_compute; reflexivity).
  destruct (Hlater (index_arrays Example.loader Example.BareLCA).1 Example.MockLCA
              Example.row_dict Example.col_dict Example.indexed_indices
              Hat Hpres Hres) as (Hstep' & Hat').
  split; [exact Hstep'|].
  apply Hat'; vm_compute; reflexivity.
Defined.

(** ** Consolidation *)

Lemma mapE_ret {A B} (f : A -> result B) (g : A -> B) (l : list A) :
  Forall (fun x => f x = ret (g x)) l -> mapE f l = ret (map g l).
Proof.
  induction 1 as [|x r Hx _ IH]; simpl; [done|]. by rewrite Hx, IH.
Qed.

Lemma mapE_raises {A B} (f : A -> result B) (l : list A) (x : A) (e : Error) :
  x ∈ l -> f x = raise e -> exists e', mapE f l = raise e'.
Proof.
  intros Hin Hx. induction l as [|y r IH]; [by apply elem_of_nil in Hin|].
  simpl. destruct (f y) as [e1|b] eqn:Hy; [by exists e1|].
  apply elem_of_cons in Hin as [->|Hin].
  - rewrite Hx in Hy. discriminate Hy.
  - destruct (IH Hin) as [e' ->]. by exists e'.
Qed.

(** A list with two different members is not a set of one member. *)
Lemma one_member_differ {A} `{EqDecision A} (l : list A) (x y : A) :
  x ∈ l -> y ∈ l -> x <> y -> one_member l = false.
Proof.
  intros Hx Hy Hne. destruct l as [|z r]; [done|]. simpl.
  apply not_true_is_false. intros Hall.
  rewrite forallb_forall in Hall.
  assert (Hz : forall w, w ∈ z :: r -> w = z).
  { intros w Hw. apply elem_of_cons in Hw as [->|Hw]; [done|].
    apply list_elem_of_In in Hw. specialize (Hall w Hw).
    by apply bool_decide_eq_true in Hall. }
  apply Hne. by rewrite (Hz x Hx), (Hz y Hy).
Qed.

Lemma tuple_key_matrix (el : gmap string val) (m : string) :
  el !! "matrix" = Some (VStr m) -> tuple_key ["matrix"] el = ret [VStr m].
Proof. intros H. unfold tuple_key. simpl. unfold getitem. by rewrite H. Qed.

(** The assertion at the head of [consolidate]. *)
Lemma check_matrices_conflict (group : list (gmap string val)) (el1 el2 : gmap string val)
    (m1 m2 : string) :
  Forall (fun el => exists m, el !! "matrix" = Some (VStr m)) group ->
  el1 ∈ group -> el2 ∈ group ->
  el1 !! "matrix" = Some (VStr m1) -> el2 !! "matrix" = Some (VStr m2) ->
  m1 <> m2 ->
  check_matrices group = raise (AssertionError "Conflicting matrices").
Proof.
  intros Hall H1 H2 Hm1 Hm2 Hne. unfold check_matrices.
  set (key := fun el : gmap string val =>
                match el !! "matrix" with Some v => [v] | None => [] end).
  rewrite (mapE_ret _ key).
  - simpl. rewrite (one_member_differ _ (key el1) (key el2)); [done|..].
    + apply list_elem_of_fmap. by exists el1.
    + apply list_elem_of_fmap. by exists el2.
    + unfold key. rewrite Hm1, Hm2. congruence.
  - eapply Forall_impl; [exact Hall|]. intros el [m Hm].
    unfold key. rewrite Hm. by apply tuple_key_matrix.
Qed.

Lemma load_data_raises `{RandomState} (d : directory) (seed0 : option Z) (ref : nat)
    (all : list (gmap string val)) (groups : list (list (gmap string val)))
    (group : list (gmap string val)) (e : Error) :
  m_resources (datapackage d) = Some all ->
  resource_groups all = ret groups ->
  group ∈ groups ->
  consolidate d group = raise e ->
  exists e', load_data d seed0 ref = raise e'.
Proof.
  intros Hall Hgroups Hin Hcons. unfold load_data.
  destruct (metadata_get (m_name _) _) as [e1|name]; [by exists e1|]. simpl.
  destruct (metadata_get (m_id _) _) as [e1|id]; [by exists e1|]. simpl.
  destruct (metadata_get (m_seed _) _) as [e1|mseed]; [by exists e1|]. simpl.
  rewrite Hall. simpl. rewrite Hgroups. simpl.
  destruct (mapE_raises (consolidate d) groups group e Hin Hcons) as [e' ->].
  by exists e'.
Qed.

(** [__init__] builds no loader when the load of one directory raises. *)
Lemma init_raises `{RandomState} (dirpaths : list directory) (d : directory)
    (seed0 : option Z) :
  d ∈ dirpaths ->
  (forall ref, exists e, load_data d seed0 ref = raise e) ->
  exists e, init (Some dirpaths) seed0 = raise e.
Proof.
  intros Hin Hload. unfold init. simpl.
  set (self := {| seed := seed0; data := []; parameter_metadata_list := [];
                  sample_indexers := []; msi := []; psi := []; empty := true |}).
  assert (Hseed : seed self = seed0) by done.
  assert (Hloop : exists e, init_loop dirpaths self = raise e).
  { clearbody self. revert self Hseed.
    induction dirpaths as [|d' r IH]; intros self Hseed;
      [by apply elem_of_nil in Hin|].
    simpl. apply elem_of_cons in Hin as [<-|Hin].
    - rewrite Hseed. destruct (Hload (length (sample_indexers self))) as [e ->].
      by exists e.
    - destruct (load_data d' _ _) as [e|p]; [by exists e|]. simpl.
      apply IH; [done|]. by destruct p. }
  destruct Hloop as [e ->]. by exists e.
Qed.

(** C3. A consolidation group in which two resources name different
    matrices makes [consolidate] raise: the assertion ["Conflicting
    matrices"] at its head fails (the error the spec calls
    ConflictingMatrixTarget).  This happens at load time: [__init__], handed
    a directory whose manifest gives such a group, raises and builds no
    loader, so nothing is indexed. *)
Theorem consolidate_conflicting_matrices (d : directory)
    (group : list (gmap string val)) (el1 el2 : gmap string val) (m1 m2 : string) :
  Forall (fun el => exists m, el !! "matrix" = Some (VStr m)) group ->
  el1 ∈ group -> el2 ∈ group ->
  el1 !! "matrix" = Some (VStr m1) -> el2 !! "matrix" = Some (VStr m2) ->
  m1 <> m2 ->
  consolidate d group = raise (AssertionError "Conflicting matrices") /\
  forall (R : RandomState) (dirpaths : list directory) (seed0 : option Z)
         (all : list (gmap string val)) (groups : list (list (gmap string val))),
    d ∈ dirpaths ->
    m_resources (datapackage d) = Some all ->
    resource_groups all = ret groups ->
    group ∈ groups ->
    exists e, init (Some dirpaths) seed0 = raise e.
Proof.
  intros Hall H1 H2 Hm1 Hm2 Hne.
  assert (Hcons : consolidate d group = raise (AssertionError "Conflicting matrices")).
  { unfold consolidate.
    by rewrite (check_matrices_conflict group el1 el2 m1 m2). }
  split; [exact Hcons|].
  intros R dirpaths seed0 all groups Hd Hres Hgroups Hin.
  apply (init_raises dirpaths d seed0 Hd). intros ref.
  by apply (load_data_raises d seed0 ref all groups group _ Hres Hgroups Hin Hcons).
Qed.

Lemma consolidate_conflicting_matrices_witness :
  consolidate Example.conflicting_package [Example.resource_a; Example.resource_b]
  = raise (AssertionError "Conflicting matrices") /\
  exists e, @init Example.gen (Some [Example.package; Example.conflicting_package]) None
            = raise e.
Proof.
  assert (Hall : Forall (fun el => exists m, el !! "matrix" = Some (VStr m))
                   [Example.resource_a; Example.resource_b]).
  { repeat constructor; eexists; reflexivity. }
  destruct (consolidate_conflicting_matrices Example.conflicting_package
              [Example.resource_a; Example.resource_b]
              Example.resource_a Example.resource_b "a" "b" Hall) as [Hcons Hinit].
  - apply elem_of_cons. by left.
  - apply elem_of_cons. right. apply elem_of_cons. by left.
  - reflexivity.
  - reflexivity.
  - discriminate.
  - split; [exact Hcons|].
    apply (Hinit Example.gen [Example.package; Example.conflicting_package] None
             [Example.resource_a; Example.resource_b]
             [[Example.resource_a; Example.resource_b]]).
    + apply elem_of_cons. right. apply elem_of_cons. by left.
    + reflexivity.
    + vm_compute. reflexivity.
    + apply elem_of_cons. by left.
Defined.

(** ** Writing *)

Lemma setitem_snoc (m : gmap (Z * Z) Z) (ws : list (Z * Z * Z)) (w : Z * Z * Z) :
  setitem m (ws ++ [w]) = <[w.1 := w.2]> (setitem m ws).
Proof. unfold setitem. by rewrite foldl_app. Qed.


(** A cell no assignment names keeps its value. *)
Lemma setitem_other (m : gmap (Z * Z) Z) (ws : list (Z * Z * Z)) (p : Z * Z) :
  (forall k q u, ws !! k = Some (q, u) -> q <> p) ->
  setitem m ws !! p = m !! p.
Proof.
  induction ws as [|w ws IH] using rev_ind; intros Hno; [done|].
  rewrite setitem_snoc. destruct w as [q u]. simpl. rewrite lookup_insert_ne.
  - apply IH. intros k q' u' Hk. apply (Hno k q' u').
    rewrite lookup_app_l; [done|]. by apply lookup_lt_Some in Hk.
  - apply (Hno (length ws) q u). by rewrite lookup_app_r, Nat.sub_diag by lia.
Qed.




(** The value drawn for a group that is not a technosphere group is the
    column of its sample array at the current index of its package. *)
Lemma elem_sample_plain (ix : Indexer) (elem : gmap string val)
    (store : IrregularPresamplesArray) (type : val) :
  elem !! "samples" = Some (VSamples store) ->
  elem !! "type" = Some type ->
  type <> VStr "technosphere" ->
  elem_sample (Some ix) elem = sample store (index ix).
Proof.
  intros Hs Ht Hne. unfold elem_sample, getitem. rewrite Hs, Ht. simpl.
  destruct (sample store (index ix)) as [e|vector]; [done|]. simpl.
  by rewrite decide_False.
Qed.

(** For a technosphere group the values of the consumed exchanges change
    sign. *)
Lemma elem_sample_technosphere (ix : Indexer) (elem : gmap string val)
    (store : IrregularPresamplesArray) (a : recarray) (types vector : list Z) :
  elem !! "samples" = Some (VSamples store) ->
  elem !! "type" = Some (VStr "technosphere") ->
  elem !! "indices" = Some (VArray a) ->
  cols a !! "type" = Some types ->
  sample store (index ix) = ret vector ->
  elem_sample (Some ix) elem = flip_masked types vector.
Proof.
  intros Hs Ht Hi Hty Hv. unfold elem_sample, getitem. rewrite Hs, Ht, Hi. simpl.
  rewrite Hv. simpl. unfold fix_supply_use, getfield, field. simpl.
  by rewrite Hty.
Qed.






(** ** Skipping *)

Lemma update_elem_skip (matrices : option (list string)) (indexer : option Indexer)
    (elem : gmap string val) (lca : target) :
  skipped matrices lca elem -> update_elem matrices indexer elem lca = (lca, None).
Proof.
  intros (n & Hn & Hskip). unfold update_elem, getitem. rewrite Hn.
  cbn -[getattr filtered_out].
  destruct (getattr_str lca n) as [[a Ha]|Hl].
  - rewrite Ha. destruct Hskip as [Hl|Hf].
    + unfold lacks in Hl. rewrite Ha in Hl. discriminate Hl.
    + by rewrite Hf.
  - unfold lacks in Hl. by rewrite Hl.
Qed.

Lemma fold_each_inv {A S} (P : S -> Prop) (body : A -> S -> S * option Error)
    (l : list A) (st : S) :
  (forall x st0, P st0 -> P (body x st0).1) ->
  P st -> P (fold_each body l st).1.
Proof.
  intros Hbody. revert st. induction l as [|x r IH]; intros st Hst; [done|].
  simpl. specialize (Hbody x st Hst).
  destruct (body x st) as [st' [e|]]; simpl in *; [done|]. by apply IH.
Qed.

Lemma getattr_set_attr_ne (lca : target) (n n' : string) (a : attr) :
  n <> n' -> getattr (set_attr lca (VStr n') a) (VStr n) = getattr lca (VStr n).
Proof.
  intros Hne. destruct lca as [|attrs]; simpl; [done|].
  by rewrite lookup_insert_ne.
Qed.

(** A step of the loop never touches an attribute the target lacks, nor one
    the filter excludes. *)
Lemma update_elem_frame (matrices : option (list string)) (indexer : option Indexer)
    (elem : gmap string val) (lca : target) (n : string) :
  lacks lca n \/ filtered_out matrices (VStr n) = true ->
  getattr (update_elem matrices indexer elem lca).1 (VStr n) = getattr lca (VStr n).
Proof.
  intros Hskip. unfold update_elem.
  destruct (getitem elem "matrix") as [e|name]; [done|].
  destruct (getattr lca name) as [e|matrix] eqn:Hget; [by destruct e|].
  destruct (filtered_out matrices name) eqn:Hf; [done|].
  destruct (let* vector := elem_sample indexer elem in _) as [e|matrix']; [done|].
  cbn -[getattr].
  destruct name as [| | |n'| | | |]; try done.
  apply getattr_set_attr_ne. intros <-.
  destruct Hskip as [Hl|Hf'].
  - unfold lacks in Hl. rewrite Hl in Hget. discriminate Hget.
  - rewrite Hf' in Hf. discriminate Hf.
Qed.

Lemma update_matrices_frame (self : PackagesDataLoader) (matrices : option (list string))
    (lca : target) (n : string) :
  lacks lca n \/ filtered_out matrices (VStr n) = true ->
  getattr (update_matrices self lca matrices).1 (VStr n) = getattr lca (VStr n).
Proof.
  intros Hskip. unfold update_matrices, nonempty.
  destruct (empty self); [done|].
  assert (Hkeep : forall st, getattr st (VStr n) = getattr lca (VStr n) ->
            lacks st n \/ filtered_out matrices (VStr n) = true).
  { intros st Hst. destruct Hskip as [Hl|Hf]; [left|by right].
    unfold lacks in *. by rewrite Hst. }
  apply (fold_each_inv (fun st => getattr st (VStr n) = getattr lca (VStr n)));
    [|done].
  intros p st Hst. unfold update_section.
  apply (fold_each_inv (fun st => getattr st (VStr n) = getattr lca (VStr n)));
    [|done].
  intros elem st0 Hst0. rewrite <- Hst0. apply update_elem_frame. by apply Hkeep.
Qed.

Lemma update_matrices_all_skipped (self : PackagesDataLoader)
    (matrices : option (list string)) (lca : target) :
  Forall (fun sec => Forall (skipped matrices lca) (matrix_data sec)) (data self) ->
  update_matrices self lca matrices = (lca, None).
Proof.
  intros Hall. unfold update_matrices, nonempty.
  destruct (empty self); [done|].
  apply fold_each_skip. apply Forall_forall. intros [ref sec] Hin.
  apply elem_of_zip_r in Hin. simpl in Hin.
  rewrite Forall_forall in Hall. specialize (Hall sec Hin).
  unfold update_section. simpl. apply fold_each_skip.
  eapply Forall_impl; [exact Hall|]. intros elem Hel.
  by apply update_elem_skip.
Qed.

(** C5. The skip for a missing or filtered matrix is silent and preserves
    the frame.  For a group whose matrix the target lacks, or whose matrix
    the filter excludes, the step of [update_matrices] returns the target as
    it was and raises nothing.  Over a whole call, whatever the other groups
    do, the attribute of that name is after the call what it was before:
    still absent, or the same matrix.  When every group of the loader is
    such a group, the call returns the target as it was and raises
    nothing. *)
Theorem update_matrices_skip (matrices : option (list string))
    (indexer : option Indexer) (elem : gmap string val) (lca : target) (n : string) :
  elem !! "matrix" = Some (VStr n) ->
  lacks lca n \/ filtered_out matrices (VStr n) = true ->
  update_elem matrices indexer elem lca = (lca, None) /\
  (forall self : PackagesDataLoader,
     getattr (update_matrices self lca matrices).1 (VStr n) = getattr lca (VStr n)) /\
  (forall self : PackagesDataLoader,
     Forall (fun sec => Forall (skipped matrices lca) (matrix_data sec)) (data self) ->
     update_matrices self lca matrices = (lca, None)).
Proof.
  intros Hn Hskip. split; [|split].
  - apply update_elem_skip. by exists n.
  - intros self. by apply update_matrices_frame.
  - intros self. apply update_matrices_all_skipped.
Qed.

Lemma update_matrices_skip_witness :
  update_elem None (Some Example.the_indexer) Example.elem Example.WrongLCA
  = (Example.WrongLCA, None) /\
  update_matrices Example.loader Example.WrongLCA None = (Example.WrongLCA, None) /\
  update_matrices Example.loader Example.MockLCA (Some ["other"])
  = (Example.MockLCA, None).
Proof.
  destruct (update_matrices_skip None (Some Example.the_indexer) Example.elem
              Example.WrongLCA "matrix" eq_refl (or_introl eq_refl))
    as (Hstep & _ & Hcall).
  destruct (update_matrices_skip (Some ["other"]) (Some Example.the_indexer)
              Example.elem Example.MockLCA "matrix" eq_refl (or_intror eq_refl))
    as (_ & _ & Hcall').
  split; [exact Hstep|]. split.
  - apply Hcall. repeat constructor. exists "matrix". split; [reflexivity|by left].
  - apply Hcall'. repeat constructor. exists "matrix".
    split; [reflexivity|by right].
Defined.

(** ** Construction *)

(** What [__init__] keeps in [data]: only sections that hold a group. *)
Lemma init_loop_data `{RandomState} (dirpaths : list directory)
    (self self' : PackagesDataLoader) :
  init_loop dirpaths self = ret self' ->
  Forall (fun sec => matrix_data sec <> []) (data self) ->
  Forall (fun sec => matrix_data sec <> []) (data self').
Proof.
  revert self. induction dirpaths as [|d r IH]; intros self; simpl.
  - by intros [= <-].
  - destruct (load_data d _ _) as [e|[sec ix]]; [done|]. simpl.
    intros Hloop Hall. apply (IH _ Hloop). unfold add_section. simpl.
    destruct (matrix_data sec) eqn:Hmd; [done|].
    apply Forall_app. split; [done|]. repeat constructor. by rewrite Hmd.
Qed.

Lemma init_empty `{RandomState} (dirpaths : option (list directory)) (seed0 : option Z)
    (self : PackagesDataLoader) :
  init dirpaths seed0 = ret self ->
  empty self = match data self with [] => true | _ => false end /\
  Forall (fun sec => matrix_data sec <> []) (data self).
Proof.
  unfold init.
  destruct (init_loop _ _) as [e|self0] eqn:Hloop; [done|]. simpl.
  intros [= <-]. simpl. split; [done|].
  by apply (init_loop_data _ _ _ Hloop).
Qed.

(** C6. The empty gate.  A loader built by [__init__] that holds no
    matrix-bound group in any of its packages has [empty] true, and both
    [index_arrays] and [update_matrices] return at once for every target,
    the null target included: the loader and the target are as they were
    and nothing is raised. *)
Theorem empty_loader_noop (R : RandomState) (dirpaths : option (list directory))
    (seed0 : option Z) (self : PackagesDataLoader) :
  init dirpaths seed0 = ret self ->
  flat_map matrix_data (data self) = [] ->
  empty self = true /\
  forall lca : target,
    index_arrays self lca = (self, None) /\
    forall matrices, update_matrices self lca matrices = (lca, None).
Proof.
  intros Hinit Hzero. destruct (init_empty _ _ _ Hinit) as [Hempty Hall].
  assert (Hdata : data self = []).
  { destruct (data self) as [|sec r]; [done|].
    apply Forall_cons in Hall as [Hsec _]. simpl in Hzero.
    apply app_eq_nil in Hzero as [Hmd _]. done. }
  rewrite Hdata in Hempty. split; [done|]. intros lca.
  unfold index_arrays, update_matrices, nonempty. by rewrite Hempty.
Qed.

Lemma empty_loader_noop_witness :
  empty Example.empty_loader = true /\
  index_arrays Example.empty_loader TNone = (Example.empty_loader, None) /\
  update_matrices Example.empty_loader TNone None = (TNone, None).
Proof.
  destruct (empty_loader_noop Example.gen (Some [Example.empty_package]) None
              Example.empty_loader) as [Hempty Hnoop].
  - vm_compute. reflexivity.
  - reflexivity.
  - split; [exact Hempty|]. destruct (Hnoop TNone) as [Hindex Hupdate].
    split; [exact Hindex|apply Hupdate].
Defined.

(** The loader the model builds for the package of the test suite. *)
Example init_package :
  @init Example.gen (Some [Example.package]) None = ret Example.loader /\
  @init Example.gen (Some [Example.package]) (Some 5) = ret Example.override_loader.
Proof. split; vm_compute; reflexivity. Qed.

(** The seed of the Indexer [load_data] builds for the directory [d] when
    the caller gives [seed0]. *)
Lemma load_data_seed `{RandomState} (d : directory) (seed0 : option Z) (ref : nat)
    (sec : section) (ix : Indexer) :
  load_data d seed0 ref = ret (sec, ix) ->
  exists mseed,
    m_seed (datapackage d) = Some mseed /\
    s_seed sec = mseed /\
    indexer sec = ref /\
    seed_value ix = match seed0 with Some s => Some s | None => mseed end.
Proof.
  unfold load_data.
  destruct (metadata_get (m_name _) _) as [e|name]; [done|]. simpl.
  destruct (metadata_get (m_id _) _) as [e|id]; [done|]. simpl.
  destruct (m_seed (datapackage d)) as [mseed|]; [|done]. simpl.
  destruct (metadata_get (m_resources _) _) as [e|all]; [done|]. simpl.
  destruct (resource_groups all) as [e|groups]; [done|]. simpl.
  destruct (mapE (consolidate d) groups) as [e|md]; [done|]. simpl.
  intros [= <- <-]. exists mseed. by destruct seed0.
Qed.

Lemma init_loop_seeds `{RandomState} (dirpaths : list directory)
    (self self' : PackagesDataLoader) :
  init_loop dirpaths self = ret self' ->
  seed self' = seed self /\
  (exists ixs, sample_indexers self' = sample_indexers self ++ ixs /\
               Forall2 (seeded (seed self)) dirpaths ixs) /\
  (Forall2 (fun ref sec => ref = indexer sec) (msi self) (data self) ->
   Forall2 (fun ref sec => ref = indexer sec) (msi self') (data self')).
Proof.
  revert self. induction dirpaths as [|d r IH]; intros self; simpl.
  - intros [= <-]. split; [done|]. split; [|done].
    exists []. by rewrite app_nil_r.
  - destruct (load_data d _ _) as [e|[sec ix]] eqn:Hload; [done|]. simpl.
    intros Hloop. destruct (IH _ Hloop) as (Hseed & (ixs & Hixs & Hall) & Hmsi).
    simpl in *. split; [done|]. split.
    + exists (ix :: ixs). split; [by rewrite Hixs, <- app_assoc|].
      constructor; [|done].
      destruct (load_data_seed _ _ _ _ _ Hload) as (mseed & Hm & _ & _ & Hs).
      by exists mseed.
    + intros H0. apply Hmsi.
      destruct (matrix_data sec); [done|].
      apply Forall2_app; [done|]. by repeat constructor.
Qed.

(** C7. Seed selection.  In a loader built by [__init__] there is one
    Indexer per directory, in order, and its seed is the seed the caller
    gave when there is one and the seed of the manifest of its directory
    otherwise.  With a seed given, every Indexer of the loader has that
    seed, whatever the manifests say.  Each section of [data] is paired in
    [msi] with the Indexer it refers to, so all its groups are sampled with
    that one Indexer. *)
Theorem init_seed_selection (R : RandomState) (dirpaths : list directory)
    (seed0 : option Z) (self : PackagesDataLoader) :
  init (Some dirpaths) seed0 = ret self ->
  Forall2 (seeded seed0) dirpaths (sample_indexers self) /\
  (forall s ix, seed0 = Some s -> ix ∈ sample_indexers self -> seed_value ix = Some s) /\
  Forall2 (fun ref sec => ref = indexer sec) (msi self) (data self).
Proof.
  unfold init. simpl.
  destruct (init_loop _ _) as [e|self0] eqn:Hloop; [done|]. simpl.
  intros [= <-]. simpl.
  destruct (init_loop_seeds _ _ _ Hloop) as (_ & (ixs & Hixs & Hall) & Hmsi).
  simpl in *. subst ixs.
  split; [done|]. split; [|by apply Hmsi].
  intros s ix -> Hin.
  destruct (proj1 (list_elem_of_lookup _ _) Hin) as [k Hk].
  destruct (Forall2_lookup_r _ _ _ _ _ Hall Hk) as (d & _ & mseed & _ & Hs).
  done.
Qed.

Lemma init_seed_selection_witness :
  map seed_value (sample_indexers Example.loader) = [Some 42] /\
  map seed_value (sample_indexers Example.override_loader) = [Some 5].
Proof.
  destruct (init_seed_selection Example.gen [Example.package] None Example.loader)
    as (Hmanifest & _ & _); [vm_compute; reflexivity|].
  destruct (init_seed_selection Example.gen [Example.package] (Some 5)
              Example.override_loader)
    as (_ & Hoverride & _); [vm_compute; reflexivity|].
  split.
  - apply Forall2_cons_inv_l in Hmanifest as (ix & ixs & (mseed & Hm & Hs) & Hnil & Heq).
    apply Forall2_nil_inv_l in Hnil. subst ixs.
    injection Hm as <-. injection Heq as <-. reflexivity.
  - assert (Hin : Example.override_indexer ∈ sample_indexers Example.override_loader)
      by (apply elem_of_cons; by left).
    exact (f_equal (fun s => [s]) (Hoverride 5 Example.override_indexer eq_refl Hin)).
Defined.

(** ** The index sequence *)

Lemma load_data_indexer `{RandomState} (d : directory) (seed0 : option Z) (ref : nat)
    (sec : section) (ix : Indexer) :
  load_data d seed0 ref = ret (sec, ix) -> exists sd, ix = Indexer_init sd.
Proof.
  unfold load_data.
  destruct (metadata_get (m_name _) _) as [e|name]; [done|]. simpl.
  destruct (metadata_get (m_id _) _) as [e|id]; [done|]. simpl.
  destruct (metadata_get (m_seed _) _) as [e|mseed]; [done|]. simpl.
  destruct (metadata_get (m_resources _) _) as [e|all]; [done|]. simpl.
  destruct (resource_groups all) as [e|groups]; [done|]. simpl.
  destruct (mapE (consolidate d) groups) as [e|md]; [done|]. simpl.
  intros [= <- <-]. by eexists.
Qed.

(** Every Indexer of a loader built by [__init__] is as its constructor
    left it. *)
Lemma init_indexers_fresh `{RandomState} (dirpaths : option (list directory))
    (seed0 : option Z) (self : PackagesDataLoader) :
  init dirpaths seed0 = ret self ->
  Forall (fun ix => ix = Indexer_init (seed_value ix)) (sample_indexers self).
Proof.
  unfold init.
  destruct (init_loop _ _) as [e|self0] eqn:Hloop; [done|]. simpl.
  intros [= <-]. simpl.
  match type of Hloop with init_loop ?l ?s = _ =>
    assert (H0 : Forall (fun ix => ix = Indexer_init (seed_value ix)) (sample_indexers s))
      by constructor;
    generalize dependent s; generalize l end.
  intros l. induction l as [|d r IH]; intros s; simpl.
  - by intros [= <-].
  - destruct (load_data d _ _) as [e|[sec ix]] eqn:Hload; [done|]. simpl.
    intros Hloop H0. apply (IH _ Hloop). simpl.
    apply Forall_app. split; [done|]. repeat constructor.
    by destruct (load_data_indexer _ _ _ _ _ Hload) as [sd ->].
Qed.

Lemma advance_indexers `{RandomState} (n : nat) (self : PackagesDataLoader) :
  sample_indexers (advance n self) = map (Nat.iter n Indexer_next) (sample_indexers self).
Proof.
  unfold advance. induction n as [|n IH]; simpl.
  - by rewrite map_id.
  - rewrite IH, map_map. reflexivity.
Qed.

Lemma iter_next_fresh `{RandomState} (n : nat) (sd : option Z) :
  Nat.iter n Indexer_next (Indexer_init sd)
  = {| seed_value := sd; count := n; index := randint sd n |}.
Proof.
  induction n as [|n IH]; [done|]. simpl. by rewrite IH.
Qed.

(** The index of a package is a function of its seed and of the number of
    advances alone. *)
Lemma index_after_init `{RandomState} (dirpaths : option (list directory))
    (seed0 : option Z) (self : PackagesDataLoader) (k n : nat) (ix : Indexer) :
  init dirpaths seed0 = ret self ->
  sample_indexers self !! k = Some ix ->
  index_after self k n = Some (randint (seed_value ix) n).
Proof.
  intros Hinit Hk. unfold index_after.
  rewrite advance_indexers, list_lookup_fmap, Hk. simpl.
  pose proof (init_indexers_fresh _ _ _ Hinit) as Hfresh.
  rewrite Forall_forall in Hfresh.
  rewrite (Hfresh ix) by (by apply list_elem_of_lookup_2 in Hk).
  by rewrite iter_next_fresh.
Qed.

(** C8. Determinism of the index sequence.  Take two loaders, each built by
    its own call of [__init__], and in each a package whose Indexer has the
    seed [s].  Whatever else the two loaders hold, after any number of calls
    of [update_sample_indices] the two packages have gone through the same
    indices, so the columns these indices select in one sample array are
    the same. *)
Theorem index_sequence_deterministic (R : RandomState) (s : Z)
    (dirpaths1 dirpaths2 : option (list directory)) (seed1 seed2 : option Z)
    (self1 self2 : PackagesDataLoader) (k1 k2 : nat) (ix1 ix2 : Indexer) :
  init dirpaths1 seed1 = ret self1 ->
  init dirpaths2 seed2 = ret self2 ->
  sample_indexers self1 !! k1 = Some ix1 ->
  sample_indexers self2 !! k2 = Some ix2 ->
  seed_value ix1 = Some s ->
  seed_value ix2 = Some s ->
  forall N : nat,
    index_sequence self1 k1 N = index_sequence self2 k2 N /\
    index_sequence self1 k1 N = map (fun n => Some (randint (Some s) n)) (seq 1 N) /\
    forall store, sampled_columns store self1 k1 N = sampled_columns store self2 k2 N.
Proof.
  intros Hinit1 Hinit2 Hk1 Hk2 Hs1 Hs2 N.
  assert (H1 : index_sequence self1 k1 N
               = map (fun n => Some (randint (Some s) n)) (seq 1 N)).
  { unfold index_sequence. apply map_ext. intros n.
    by rewrite (index_after_init _ _ _ _ _ _ Hinit1 Hk1), Hs1. }
  assert (H2 : index_sequence self2 k2 N
               = map (fun n => Some (randint (Some s) n)) (seq 1 N)).
  { unfold index_sequence. apply map_ext. intros n.
    by rewrite (index_after_init _ _ _ _ _ _ Hinit2 Hk2), Hs2. }
  split; [by rewrite H1, H2|]. split; [done|].
  intros store. unfold sampled_columns. by rewrite H1, H2.
Qed.

Lemma index_sequence_deterministic_witness :
  @index_sequence Example.gen Example.loader 0 5
  = @index_sequence Example.gen Example.second_loader 1 5 /\
  @index_sequence Example.gen Example.loader 0 5
  = [Some 3; Some 0; Some 1; Some 2; Some 3].
Proof.
  destruct (index_sequence_deterministic Example.gen 42
              (Some [Example.package]) (Some [Example.empty_package; Example.package])
              None (Some 42) Example.loader Example.second_loader 0 1
              Example.the_indexer Example.the_indexer) with (N := 5%nat)
    as (Hsame & Hseq & _); try reflexivity.
  split; [exact Hsame|]. rewrite Hseq. vm_compute. reflexivity.
Defined.

(** ** Writing before indexing *)






(** ** The column check of [consolidate] *)

Lemma mapE_getitem_missing (keys : list string) (el : gmap string val) (k : string) :
  missing_key keys el = Some k -> mapE (getitem el) keys = raise (KeyError k).
Proof.
  unfold missing_key. induction keys as [|k' r IH]; [done|].
  rewrite filter_cons. simpl. unfold getitem at 1.
  destruct (decide (el !! k' = None)) as [Hnone|Hsome].
  - simpl. intros [= <-]. by rewrite Hnone.
  - intros Hk. destruct (el !! k') as [v|]; [|done]. simpl.
    by rewrite (IH Hk).
Qed.

Lemma tuple_key_missing (keys : list string) (el : gmap string val) (k : string) :
  missing_key keys el = Some k -> tuple_key keys el = raise (KeyError k).
Proof.
  intros Hk. unfold tuple_key. by rewrite (mapE_getitem_missing keys el k Hk).
Qed.

Lemma tuple_key_strings (keys : list string) (el : gmap string val) :
  Forall (fun k => exists s, el !! k = Some (VStr s)) keys ->
  exists vs, tuple_key keys el = ret vs.
Proof.
  intros Hall. unfold tuple_key.
  assert (Hget : exists vs, mapE (getitem el) keys = ret vs /\
                            Forall (fun v => exists s, v = VStr s) vs).
  { induction Hall as [|k r [s Hs] _ (vs & Hvs & Hstr)]; [by exists []|].
    exists (VStr s :: vs). simpl. unfold getitem at 1. rewrite Hs. simpl.
    rewrite Hvs. split; [done|]. constructor; [by exists s|done]. }
  destruct Hget as (vs & -> & Hstr). simpl.
  induction Hstr as [|v r [s ->] _ [ks Hks]]; [by exists []|].
  exists (VStr s :: ks). simpl. by rewrite Hks.
Qed.

(** [mapE] raises what the first failing element raises. *)
Lemma mapE_first_raise {A B} (f : A -> result B) (pre post : list A) (x : A) (e : Error) :
  Forall (fun y => exists b, f y = ret b) pre ->
  f x = raise e ->
  mapE f (pre ++ x :: post) = raise e.
Proof.
  intros Hpre Hx. induction Hpre as [|y r [b Hy] _ IH]; simpl.
  - by rewrite Hx.
  - by rewrite Hy, IH.
Qed.

(** C10. The column check of [consolidate] runs only when some member of
    the group has the key ['col dict'], and it then reads the three column
    keys of every member.  So in a group that passes the checks of the
    matrices and of the row labels and in which the member [el] lacks the
    column key [k], the members before it declaring their column fields:
    when some member has ['col dict'], [consolidate] raises the plain
    [KeyError k], not [ConflictingLabels]; when no member has it, the
    column check does nothing, whatever column labels the members hold. *)
Theorem consolidate_column_check (d : directory)
    (pre post : list (gmap string val)) (el : gmap string val) (k : string) :
  Forall declares_cols pre ->
  missing_key col_keys el = Some k ->
  check_matrices (pre ++ el :: post) = ret tt ->
  check_rows (pre ++ el :: post) = ret tt ->
  if existsb (fun o => contains o "col dict") (pre ++ el :: post)
  then check_cols (pre ++ el :: post) = raise (KeyError k) /\
       consolidate d (pre ++ el :: post) = raise (KeyError k)
  else check_cols (pre ++ el :: post) = ret tt.
Proof.
  intros Hpre Hk Hmat Hrows.
  assert (Hcheck : if existsb (fun o => contains o "col dict") (pre ++ el :: post)
                   then check_cols (pre ++ el :: post) = raise (KeyError k)
                   else check_cols (pre ++ el :: post) = ret tt).
  { unfold check_cols.
    destruct (existsb _ (pre ++ el :: post)); [|done].
    fold col_keys. rewrite (mapE_first_raise _ pre post el (KeyError k)); [done| |].
    - eapply Forall_impl; [exact Hpre|]. intros o Ho.
      by apply tuple_key_strings.
    - by apply tuple_key_missing. }
  destruct (existsb _ (pre ++ el :: post)); [|done].
  split; [done|]. unfold consolidate. by rewrite Hmat, Hrows, Hcheck.
Qed.

Lemma consolidate_column_check_witness :
  consolidate Example.package [Example.resource; Example.diagonal_resource]
  = raise (KeyError "col from label") /\
  check_cols [Example.diagonal_resource; Example.stray_label_resource] = ret tt.
Proof.
  split.
  - assert (Hpre : Forall declares_cols [Example.resource]).
    { repeat constructor; eexists; reflexivity. }
    exact (proj2 (consolidate_column_check Example.package [Example.resource] []
                    Example.diagonal_resource "col from label"
                    Hpre eq_refl eq_refl eq_refl)).
  - exact (consolidate_column_check Example.package [] [Example.stray_label_resource]
             Example.diagonal_resource "col from label"
             (Forall_nil_2 _) eq_refl eq_refl eq_refl).
Defined.

(** * Further properties of the loader *)

(** ** What [__init__] builds *)

Lemma add_section_fields (self : PackagesDataLoader) (sec : section) (ix : Indexer) :
  data (add_section self sec ix)
  = data self ++ filter (fun s => has_matrix_data s = true) [sec] /\
  msi (add_section self sec ix)
  = msi self ++ map indexer (filter (fun s => has_matrix_data s = true) [sec]) /\
  parameter_metadata_list (add_section self sec ix)
  = parameter_metadata_list self ++ omap parameter_metadata [sec] /\
  psi (add_section self sec ix)
  = psi self ++ map indexer (filter (fun s => has_parameters s = true) [sec]).
Proof.
  unfold add_section, has_matrix_data, has_parameters. simpl.
  rewrite !filter_cons, !filter_nil.
  destruct (matrix_data sec), (parameter_metadata sec); simpl;
    rewrite ?app_nil_r; repeat split; reflexivity.
Qed.

Lemma init_loop_loaded `{RandomState} (dirpaths : list directory)
    (self self' : PackagesDataLoader) :
  init_loop dirpaths self = ret self' ->
  exists loads,
    loaded (seed self) (length (sample_indexers self)) dirpaths loads /\
    seed self' = seed self /\
    sample_indexers self' = sample_indexers self ++ map snd loads /\
    data self'
    = data self ++ filter (fun s => has_matrix_data s = true) (map fst loads) /\
    msi self'
    = msi self
      ++ map indexer (filter (fun s => has_matrix_data s = true) (map fst loads)) /\
    parameter_metadata_list self'
    = parameter_metadata_list self ++ omap parameter_metadata (map fst loads) /\
    psi self'
    = psi self
      ++ map indexer (filter (fun s => has_parameters s = true) (map fst loads)).
Proof.
  revert self. induction dirpaths as [|d r IH]; intros self; simpl.
  - intros [= <-]. exists []. rewrite !app_nil_r.
    repeat split; try done; intros k d Hk; by rewrite lookup_nil in Hk.
  - destruct (load_data d _ _) as [e|[sec ix]] eqn:Hload; [done|]. simpl.
    intros Hloop.
    destruct (IH _ Hloop) as (loads & [Hlen Hall] & Hseed & Hix & Hd & Hm & Hpl & Hp).
    destruct (add_section_fields self sec ix) as (Hd0 & Hm0 & Hpl0 & Hp0).
    exists ((sec, ix) :: loads).
    split; [split|].
    + simpl. by rewrite Hlen.
    + intros [|k] d' Hk; simpl in Hk.
      * injection Hk as <-. exists (sec, ix). by rewrite Nat.add_0_r.
      * destruct (Hall k d' Hk) as (p & Hp1 & Hp2). exists p. split; [done|].
        rewrite <- Hp2. f_equal. simpl. rewrite length_app. simpl. lia.
    + rewrite Hseed, Hix, Hd, Hm, Hpl, Hp, Hd0, Hm0, Hpl0, Hp0, <- !app_assoc.
      change (map fst ((sec, ix) :: loads)) with ([sec] ++ map fst loads).
      change (map snd ((sec, ix) :: loads)) with ([ix] ++ map snd loads).
      rewrite !filter_app, !omap_app, !map_app.
      repeat split; try reflexivity. simpl. by rewrite <- app_assoc.
Qed.

(** X1. What [__init__] builds.  When the constructor returns, there is for
    each directory, in order, the section and the Indexer [load_data]
    returned for it, and: [sample_indexers] holds all the Indexers, also
    those of packages without data; [data] holds the sections that have
    matrix data and [msi] the references to their Indexers, so [zip(msi,
    data)] pairs each section with the Indexer of its own package;
    [parameter_metadata] and [psi] do the same for the sections with
    parameters; [empty] tells whether [data] is empty and [len] counts
    [data]. *)
Theorem init_builds (R : RandomState) (dirpaths : list directory) (seed0 : option Z)
    (self : PackagesDataLoader) :
  init (Some dirpaths) seed0 = ret self ->
  exists loads : list (section * Indexer),
    loaded seed0 0 dirpaths loads /\
    seed self = seed0 /\
    sample_indexers self = map snd loads /\
    data self = filter (fun s => has_matrix_data s = true) (map fst loads) /\
    msi self = map indexer (data self) /\
    parameter_metadata_list self = omap parameter_metadata (map fst loads) /\
    psi self = map indexer (filter (fun s => has_parameters s = true) (map fst loads)) /\
    empty self = bool_decide (data self = []) /\
    (__len__ self <= length dirpaths)%nat /\
    Forall (fun p => sample_indexers self !! p.1 = Some (p.2).2 /\
                     indexer (p.2).1 = p.1)
           (imap (fun k p => (k, p)) loads).
Proof.
  unfold init. simpl.
  destruct (init_loop _ _) as [e|self0] eqn:Hloop; [done|]. simpl.
  intros [= <-]. simpl.
  destruct (init_loop_loaded _ _ _ Hloop)
    as (loads & Hloaded & Hseed & Hix & Hd & Hm & Hpl & Hp).
  simpl in *. exists loads. rewrite Hix, Hd, Hm, Hpl, Hp.
  split; [exact Hloaded|]. repeat split; try done.
  - by destruct (filter _ (map fst loads)).
  - unfold __len__. simpl. destruct Hloaded as [<- _].
    etransitivity; [apply length_filter|]. by rewrite length_map.
  - apply Forall_forall. intros [k [sec ix]] Hin.
    apply elem_of_lookup_imap in Hin as (k' & p & [= <- <-] & Hk). simpl.
    split; [by rewrite list_lookup_fmap, Hk|].
    destruct Hloaded as [Hlen Hall].
    assert (Hlt : (k < length dirpaths)%nat)
      by (rewrite <- Hlen; by apply lookup_lt_Some in Hk).
    destruct (lookup_lt_is_Some_2 dirpaths k Hlt) as [d Hd'].
    destruct (Hall k d Hd') as (p & Hp1 & Hp2). simpl in Hp2.
    rewrite Hk in Hp1. injection Hp1 as <-.
    by destruct (load_data_seed _ _ _ _ _ Hp2) as (_ & _ & _ & Href & _).
Qed.

Lemma init_builds_witness :
  length (sample_indexers Example.second_loader) = 2%nat /\
  msi Example.second_loader = map indexer (data Example.second_loader) /\
  (__len__ Example.second_loader <= 2)%nat.
Proof.
  destruct (init_builds Example.gen [Example.empty_package; Example.package]
              (Some 42) Example.second_loader)
    as (loads & [Hlen _] & _ & Hix & _ & Hmsi & _ & _ & _ & Hle & _).
  - vm_compute. reflexivity.
  - split; [by rewrite Hix, length_map, Hlen|]. by split.
Defined.

(** ** The errors of [consolidate] *)

Lemma mapE_hash_strings (vs : list val) :
  Forall (fun v => exists s, v = VStr s) vs -> mapE hash_key vs = ret vs.
Proof.
  induction 1 as [|v r [s ->] _ IH]; [done|]. simpl. by rewrite IH.
Qed.

Lemma tuple_key_declared (keys : list string) (el : gmap string val) :
  declares keys el ->
  tuple_key keys el = ret (map (fun k => default VNone (el !! k)) keys).
Proof.
  intros Hall. unfold tuple_key.
  assert (Hget : mapE (getitem el) keys
                 = ret (map (fun k => default VNone (el !! k)) keys)).
  { induction Hall as [|k r [s Hs] _ IH]; [done|].
    simpl. unfold getitem at 1. rewrite Hs. simpl. by rewrite IH. }
  rewrite Hget. simpl. apply mapE_hash_strings.
  apply Forall_fmap. eapply Forall_impl; [exact Hall|].
  intros k [s Hs]. exists s. simpl. by rewrite Hs.
Qed.

(** Two members that differ on one of the keys have different tuples. *)
Lemma declared_tuples_differ (keys : list string) (el1 el2 : gmap string val) (k : string) :
  k ∈ keys -> el1 !! k <> el2 !! k ->
  declares keys el1 -> declares keys el2 ->
  map (fun k => default VNone (el1 !! k)) keys
  <> map (fun k => default VNone (el2 !! k)) keys.
Proof.
  intros Hin Hne H1 H2 Heq. apply Hne.
  unfold declares in *. rewrite Forall_forall in H1, H2.
  destruct (H1 k Hin) as [s1 Hs1]. destruct (H2 k Hin) as [s2 Hs2].
  assert (Hk : default VNone (el1 !! k) = default VNone (el2 !! k)).
  { clear -Hin Heq. induction keys as [|k' r IH]; [by apply elem_of_nil in Hin|].
    simpl in Heq. injection Heq as Hhd Htl.
    apply elem_of_cons in Hin as [->|Hin]; [done|by apply IH]. }
  rewrite Hs1, Hs2 in *. simpl in Hk. by rewrite Hk.
Qed.

Lemma tuples_conflict (keys : list string) (group : list (gmap string val))
    (el1 el2 : gmap string val) (k : string) :
  Forall (declares keys) group ->
  el1 ∈ group -> el2 ∈ group -> k ∈ keys -> el1 !! k <> el2 !! k ->
  exists tuples, mapE (tuple_key keys) group = ret tuples /\
                 one_member tuples = false.
Proof.
  intros Hall H1 H2 Hk Hne.
  exists (map (fun el => map (fun k => default VNone (el !! k)) keys) group).
  split.
  - apply mapE_ret. eapply Forall_impl; [exact Hall|].
    intros el Hel. by apply tuple_key_declared.
  - rewrite Forall_forall in Hall.
    eapply one_member_differ.
    + apply list_elem_of_fmap. exists el1. split; [reflexivity|done].
    + apply list_elem_of_fmap. exists el2. split; [reflexivity|done].
    + apply (declared_tuples_differ keys el1 el2 k); auto.
Qed.

(** X2. [consolidate] raises [ConflictingLabels] for a group that agrees on
    the matrix and whose members name their row fields, when two members
    differ on the label of the raw identifiers, on the label of the
    positions or on the row dictionary. *)
Theorem consolidate_conflicting_rows (d : directory) (group : list (gmap string val))
    (el1 el2 : gmap string val) (k : string) :
  check_matrices group = ret tt ->
  Forall (declares row_keys) group ->
  el1 ∈ group -> el2 ∈ group ->
  k ∈ row_keys -> el1 !! k <> el2 !! k ->
  consolidate d group = raise ConflictingLabels.
Proof.
  intros Hmat Hall H1 H2 Hk Hne.
  destruct (tuples_conflict row_keys group el1 el2 k Hall H1 H2 Hk Hne)
    as (tuples & Htuples & Hone).
  unfold consolidate, check_rows. fold row_keys.
  by rewrite Hmat, Htuples; simpl; rewrite Hone.
Qed.

Lemma consolidate_conflicting_rows_witness :
  consolidate Example.package [Example.resource; Example.resource_other_rows]
  = raise ConflictingLabels.
Proof.
  apply (consolidate_conflicting_rows Example.package
           [Example.resource; Example.resource_other_rows]
           Example.resource Example.resource_other_rows "row dict").
  - reflexivity.
  - repeat constructor; eexists; reflexivity.
  - apply elem_of_cons. by left.
  - apply elem_of_cons. right. apply elem_of_cons. by left.
  - apply elem_of_cons. right. apply elem_of_cons. right. apply elem_of_cons. by left.
  - discriminate.
Defined.

Lemma existsb_elem {A} (f : A -> bool) (l : list A) (x : A) :
  x ∈ l -> f x = true -> existsb f l = true.
Proof.
  intros Hin Hx. apply existsb_exists. exists x. split; [|done].
  by apply list_elem_of_In.
Qed.

(** X3. [consolidate] raises [ConflictingLabels] for a group that passes the
    checks of the matrix and of the row fields and whose members all name
    their column fields, when two members differ on one of the three column
    fields. *)
Theorem consolidate_conflicting_cols (d : directory) (group : list (gmap string val))
    (el1 el2 : gmap string val) (k : string) :
  check_matrices group = ret tt ->
  check_rows group = ret tt ->
  Forall (declares col_keys) group ->
  el1 ∈ group -> el2 ∈ group ->
  k ∈ col_keys -> el1 !! k <> el2 !! k ->
  consolidate d group = raise ConflictingLabels.
Proof.
  intros Hmat Hrows Hall H1 H2 Hk Hne.
  destruct (tuples_conflict col_keys group el1 el2 k Hall H1 H2 Hk Hne)
    as (tuples & Htuples & Hone).
  assert (Hany : existsb (fun o => contains o "col dict") group = true).
  { apply (existsb_elem _ group el1 H1).
    rewrite Forall_forall in Hall. specialize (Hall el1 H1).
    unfold declares, col_keys in Hall. rewrite !Forall_cons in Hall.
    destruct Hall as (_ & _ & [s Hs] & _). by apply (contains_Some _ _ (VStr s)). }
  unfold consolidate, check_cols. fold col_keys.
  by rewrite Hmat, Hrows, Hany, Htuples; simpl; rewrite Hone.
Qed.

Lemma consolidate_conflicting_cols_witness :
  consolidate Example.package [Example.resource; Example.resource_other_cols]
  = raise ConflictingLabels.
Proof.
  apply (consolidate_conflicting_cols Example.package
           [Example.resource; Example.resource_other_cols]
           Example.resource Example.resource_other_cols "col to label").
  - reflexivity.
  - reflexivity.
  - repeat constructor; eexists; reflexivity.
  - apply elem_of_cons. by left.
  - apply elem_of_cons. right. apply elem_of_cons. by left.
  - apply elem_of_cons. right. apply elem_of_cons. by left.
  - discriminate.
Defined.

Lemma mapE_Forall2 {A B} (f : A -> result B) (l : list A) (l' : list B) :
  mapE f l = ret l' <-> Forall2 (fun x y => f x = ret y) l l'.
Proof.
  revert l'. induction l as [|x r IH]; intros l'; simpl.
  - split; [intros [= <-]; constructor | by inversion 1].
  - split.
    + destruct (f x) as [e|y] eqn:Hx; [done|]. simpl.
      destruct (mapE f r) as [e|ys] eqn:Hr; [done|]. simpl.
      intros [= <-]. constructor; [done|]. by apply IH.
    + inversion 1 as [|? y ? ys Hx Hr]; subst. rewrite Hx. simpl.
      apply IH in Hr. by rewrite Hr.
Qed.

(** X4. [consolidate] raises [IncompatibleIndices] for a group that passes
    the three checks of the metadata and whose identifier tables all load,
    when two of the tables differ in their dtype. *)
Theorem consolidate_incompatible_indices (d : directory)
    (group : list (gmap string val)) (arrays : list recarray) (a1 a2 : recarray) :
  check_matrices group = ret tt ->
  check_rows group = ret tt ->
  check_cols group = ret tt ->
  Forall2 (fun el a => load_indices d el = ret a) group arrays ->
  a1 ∈ arrays -> a2 ∈ arrays -> dtype a1 <> dtype a2 ->
  consolidate d group = raise IncompatibleIndices.
Proof.
  intros Hmat Hrows Hcols Hload H1 H2 Hne.
  apply mapE_Forall2 in Hload.
  unfold consolidate. rewrite Hmat, Hrows, Hcols, Hload. simpl.
  rewrite (one_member_differ _ (dtype a1) (dtype a2)); [done| | |done].
  - apply list_elem_of_fmap. by exists a1.
  - apply list_elem_of_fmap. by exists a2.
Qed.

Lemma consolidate_incompatible_indices_witness :
  consolidate Example.two_tables_package
    [Example.resource; Example.resource_other_indices]
  = raise IncompatibleIndices.
Proof.
  apply (consolidate_incompatible_indices Example.two_tables_package
           [Example.resource; Example.resource_other_indices]
           [Example.indices; Example.wide_indices]
           Example.indices Example.wide_indices).
  - reflexivity.
  - reflexivity.
  - reflexivity.
  - repeat constructor.
  - apply elem_of_cons. by left.
  - apply elem_of_cons. right. apply elem_of_cons. by left.
  - discriminate.
Defined.

(** ** What [consolidate] returns *)

Lemma one_member_all {A} `{EqDecision A} (l : list A) :
  one_member l = true -> exists x r, l = x :: r /\ forall y, y ∈ l -> y = x.
Proof.
  destruct l as [|x r]; [done|]. simpl. intros Hall. exists x, r. split; [done|].
  intros y Hy. apply elem_of_cons in Hy as [->|Hy]; [done|].
  rewrite forallb_forall in Hall. apply list_elem_of_In in Hy.
  specialize (Hall y Hy). by apply bool_decide_eq_true in Hall.
Qed.

(** A check of [consolidate] that passes: every member has the tuple of the
    first. *)
Lemma tuples_agree (keys : list string) (group : list (gmap string val))
    (tuples : list (list val)) :
  mapE (tuple_key keys) group = ret tuples ->
  one_member tuples = true ->
  exists t, forall el, el ∈ group -> tuple_key keys el = ret t.
Proof.
  intros Hmap Hone. apply mapE_Forall2 in Hmap.
  destruct (one_member_all tuples Hone) as (t & r & _ & Hall).
  exists t. intros el Hel.
  apply list_elem_of_lookup in Hel as [i Hi].
  destruct (Forall2_lookup_l _ _ _ _ _ Hmap Hi) as (y & Hy & Hf).
  rewrite Hf. f_equal. apply Hall. by apply list_elem_of_lookup_2 in Hy.
Qed.

(** X5. A group that [consolidate] accepts is consistent: it is not empty,
    all its members have the same matrix and the same three row fields as
    the first, the same three column fields when some member has the key
    ['col dict'], and their identifier tables have one dtype. *)
Theorem consolidate_accepts (d : directory) (group : list (gmap string val))
    (r : gmap string val) :
  consolidate d group = ret r ->
  exists (first : gmap string val) (rest : list (gmap string val))
         (arrays : list recarray),
    group = first :: rest /\
    (forall el, el ∈ group ->
       tuple_key ["matrix"] el = tuple_key ["matrix"] first /\
       tuple_key row_keys el = tuple_key row_keys first /\
       (existsb (fun o => contains o "col dict") group = true ->
        tuple_key col_keys el = tuple_key col_keys first)) /\
    Forall2 (fun el a => load_indices d el = ret a) group arrays /\
    (forall a1 a2, a1 ∈ arrays -> a2 ∈ arrays -> dtype a1 = dtype a2).
Proof.
  unfold consolidate, check_matrices, check_rows, check_cols.
  fold row_keys. fold col_keys.
  destruct (mapE (tuple_key ["matrix"]) group) as [e|ms] eqn:Hms; [done|]. simpl.
  destruct (one_member ms) eqn:Hone_m; [|done]. simpl.
  destruct (mapE (tuple_key row_keys) group) as [e|rs] eqn:Hrs; [done|]. simpl.
  destruct (one_member rs) eqn:Hone_r; [|done]. simpl.
  intros Hrest.
  assert (Hcols : existsb (fun o => contains o "col dict") group = true ->
                  exists t, forall el, el ∈ group -> tuple_key col_keys el = ret t).
  { intros Hany. rewrite Hany in Hrest.
    destruct (mapE (tuple_key col_keys) group) as [e|cs] eqn:Hcs; [done|].
    simpl in Hrest. destruct (one_member cs) eqn:Hone_c; [|done].
    by apply (tuples_agree col_keys group cs). }
  destruct (if existsb _ group then _ else _) as [e|[]]; [done|]. simpl in Hrest.
  destruct (mapE (load_indices d) group) as [e|arrays] eqn:Harr; [done|].
  simpl in Hrest. destruct (one_member (map dtype arrays)) eqn:Hone_d; [|done].
  simpl in Hrest.
  destruct group as [|first rest].
  { simpl in Hms. injection Hms as <-. done. }
  destruct (tuples_agree _ _ _ Hms Hone_m) as [tm Htm].
  destruct (tuples_agree _ _ _ Hrs Hone_r) as [tr Htr].
  assert (Hfirst : first ∈ first :: rest) by (apply elem_of_cons; by left).
  exists first, rest, arrays. split; [done|]. split; [|split].
  - intros el Hel. rewrite (Htm el Hel), (Htm first Hfirst).
    rewrite (Htr el Hel), (Htr first Hfirst). repeat split.
    intros Hany. destruct (Hcols Hany) as [tc Htc].
    by rewrite (Htc el Hel), (Htc first Hfirst).
  - by apply mapE_Forall2.
  - destruct (one_member_all _ Hone_d) as (t & _ & _ & Hall).
    intros a1 a2 H1 H2.
    rewrite (Hall (dtype a1)), (Hall (dtype a2)); [done|..];
      apply list_elem_of_fmap; eauto.
Qed.

Lemma consolidate_accepts_witness :
  tuple_key row_keys Example.resource_copy = tuple_key row_keys Example.resource /\
  exists arrays,
    Forall2 (fun el a => load_indices Example.package el = ret a)
      [Example.resource; Example.resource_copy] arrays.
Proof.
  destruct (consolidate_accepts Example.package
              [Example.resource; Example.resource_copy] Example.doubled_elem)
    as (first & rest & arrays & Hgroup & Hagree & Hload & _).
  - vm_compute. reflexivity.
  - injection Hgroup as <- <-. split; [|by exists arrays].
    apply Hagree. apply elem_of_cons. right. apply elem_of_cons. by left.
Defined.

Lemma hstack2_cols (a b : recarray) (f : string) :
  cols (hstack2 a b) !! f
  = match cols a !! f with
    | Some c => Some (c ++ default [] (cols b !! f))
    | None => None
    end.
Proof.
  unfold hstack2. simpl. rewrite map_lookup_imap. by destruct (cols a !! f).
Qed.

Lemma foldl_hstack2 (a : recarray) (r : list recarray) (f : string) :
  dtype (foldl hstack2 a r) = dtype a /\
  cols (foldl hstack2 a r) !! f
  = match cols a !! f with
    | Some c => Some (c ++ concat (map (fun b => default [] (cols b !! f)) r))
    | None => None
    end.
Proof.
  revert a. induction r as [|b r IH]; intros a; simpl.
  - split; [done|]. destruct (cols a !! f); [|done]. by rewrite app_nil_r.
  - destruct (IH (hstack2 a b)) as [Hd Hc]. split; [done|].
    rewrite Hc, hstack2_cols. destruct (cols a !! f); [|done].
    by rewrite <- app_assoc.
Qed.

(** The table [np.hstack] builds has, in each field, the columns of the
    tables it is given, one after the other. *)
Lemma hstack_cols (arrays : list recarray) (table : recarray) (f : string)
    (cs : list (list Z)) :
  hstack arrays = ret table ->
  Forall2 (fun a c => cols a !! f = Some c) arrays cs ->
  cols table !! f = Some (concat cs).
Proof.
  destruct arrays as [|a r]; [done|]. simpl. intros [= <-] Hall.
  apply Forall2_cons_inv_l in Hall as (c & cs' & Hc & Hrest & ->).
  destruct (foldl_hstack2 a r f) as [_ ->]. rewrite Hc. simpl. do 2 f_equal.
  induction Hrest as [|b c' r cs'' Hb _ IH]; [done|].
  simpl. by rewrite Hb, IH.
Qed.

(** X6. What [consolidate] returns.  The dict it returns holds the entries
    of the first member of the group, without the keys ['profile'],
    ['format'] and ['mediatype'], and two entries of its own: under
    ['indices'] one table with the dtype of the members' tables and, in each
    field, the members' columns one after the other in the order of the
    group; under ['samples'] one sample array whose segments are the
    members' sample files in the same order. *)
Theorem consolidate_returns (d : directory) (group : list (gmap string val))
    (r : gmap string val) :
  consolidate d group = ret r ->
  exists (first : gmap string val) (arrays : list recarray) (table : recarray)
         (segs : list (list (list Z))),
    head group = Some first /\
    Forall2 (fun el a => load_indices d el = ret a) group arrays /\
    Forall2 (fun el rows => load_samples d el = ret rows) group segs /\
    r !! "indices" = Some (VArray table) /\
    r !! "samples" = Some (VSamples {| segments := segs |}) /\
    (forall a, a ∈ arrays -> dtype table = dtype a) /\
    (forall f cs, Forall2 (fun a c => cols a !! f = Some c) arrays cs ->
                  cols table !! f = Some (concat cs)) /\
    (forall k, k ∉ SKIP -> r !! k = first !! k) /\
    (forall k, k ∈ ["profile"; "format"; "mediatype"] -> r !! k = None).
Proof.
  unfold consolidate.
  destruct (check_matrices group) as [e|[]]; [done|]. simpl.
  destruct (check_rows group) as [e|[]]; [done|]. simpl.
  destruct (check_cols group) as [e|[]]; [done|]. simpl.
  destruct (mapE (load_indices d) group) as [e|arrays] eqn:Harr; [done|]. simpl.
  destruct (one_member (map dtype arrays)) eqn:Hone; [|done]. simpl.
  destruct (hstack arrays) as [e|table] eqn:Hstack; [done|]. simpl.
  destruct (mapE (load_samples d) group) as [e|segs] eqn:Hsegs; [done|]. simpl.
  destruct group as [|first rest]; [done|]. intros [= <-].
  exists first, arrays, table, segs.
  split; [done|]. split; [by apply mapE_Forall2|]. split; [by apply mapE_Forall2|].
  split; [by rewrite lookup_insert_eq|].
  split; [by rewrite lookup_insert_ne, lookup_insert_eq|].
  split; [|split; [|split]].
  - intros a Ha. destruct (one_member_all _ Hone) as (t & _ & _ & Hall).
    destruct arrays as [|a0 ar]; [by apply elem_of_nil in Ha|].
    simpl in Hstack. injection Hstack as <-.
    destruct (foldl_hstack2 a0 ar "") as [-> _].
    rewrite (Hall (dtype a0)), (Hall (dtype a)); [done|..];
      apply list_elem_of_fmap; [by exists a|exists a0].
    split; [done|]. apply elem_of_cons. by left.
  - intros f cs. by apply hstack_cols.
  - intros k Hk.
    assert (k <> "indices" /\ k <> "samples") as [? ?].
    { split; intros ->; apply Hk; unfold SKIP; repeat constructor. }
    rewrite !lookup_insert_ne by done.
    destruct (first !! k) as [v|] eqn:Hfk.
    + by apply map_lookup_filter_Some.
    + apply map_lookup_filter_None. left. done.
  - intros k Hk.
    assert (k <> "indices" /\ k <> "samples" /\ k ∈ SKIP) as (? & ? & Hskip).
    { rewrite !elem_of_cons in Hk. unfold SKIP.
      destruct Hk as [->|[->|[->|Hk]]]; [..|by apply elem_of_nil in Hk];
        repeat split; try done; repeat constructor. }
    rewrite !lookup_insert_ne by done.
    apply map_lookup_filter_None. right. intros v _. simpl. by intros Hn.
Qed.

Lemma consolidate_returns_witness :
  exists table,
    Example.doubled_elem !! "indices" = Some (VArray table) /\
    cols table !! "f2" = Some [1; 2; 3; 1; 2; 3] /\
    Example.doubled_elem !! "matrix" = Some (VStr "matrix") /\
    Example.doubled_elem !! "format" = None.
Proof.
  destruct (consolidate_returns Example.package
              [Example.resource; Example.resource_copy] Example.doubled_elem)
    as (first & arrays & table & segs & Hfirst & Harr & _ & Hind & _ & _
        & Hcols & Hkeep & Hdrop).
  - vm_compute. reflexivity.
  - injection Hfirst as <-. exists table. split; [exact Hind|]. split; [|split].
    + apply (Hcols "f2" [[1; 2; 3]; [1; 2; 3]]).
      apply Forall2_cons_inv_l in Harr as (a1 & ar & H1 & Harr & ->).
      apply Forall2_cons_inv_l in Harr as (a2 & ar' & H2 & Harr & ->).
      apply Forall2_nil_inv_l in Harr as ->.
      vm_compute in H1. vm_compute in H2.
      injection H1 as <-. injection H2 as <-.
      repeat constructor.
    + rewrite (Hkeep "matrix"); [reflexivity|]. unfold SKIP.
      rewrite !elem_of_cons, elem_of_nil. intros [?|[?|[?|[?|[?|[]]]]]]; done.
    + apply Hdrop. repeat constructor.
Defined.

(** ** Sorting and grouping the resources *)

Lemma leb_refl (a : string) : String.leb a a = true.
Proof. by destruct (String.leb_total a a). Qed.

Lemma leb_trans (a b c : string) :
  String.leb a b = true -> String.leb b c = true -> String.leb a c = true.
Proof.
  unfold String.leb.
  destruct (String.compare a b) eqn:Hab; [|
    destruct (String.compare b c) eqn:Hbc |]; try done.
  - apply OrderedTypeEx.String_as_OT.cmp_eq in Hab as ->. done.
  - apply OrderedTypeEx.String_as_OT.cmp_eq in Hbc as <-. by rewrite Hab.
  - apply OrderedTypeEx.String_as_OT.cmp_lt in Hab, Hbc.
    pose proof (OrderedTypeEx.String_as_OT.lt_trans _ _ _ Hab Hbc) as Hac.
    apply OrderedTypeEx.String_as_OT.cmp_lt in Hac.
    unfold OrderedTypeEx.String_as_OT.cmp in Hac. by rewrite Hac.
Qed.

Lemma ltb_leb (a b : string) :
  String.ltb a b = true <-> String.leb a b = true /\ a <> b.
Proof.
  unfold String.ltb, String.leb. split.
  - destruct (String.compare a b) eqn:Hab; try done. intros _. split; [done|].
    intros ->. pose proof (leb_refl b) as Hr. unfold String.leb in Hr.
    pose proof (proj2 (OrderedTypeEx.String_as_OT.cmp_eq b b) eq_refl) as He.
    unfold OrderedTypeEx.String_as_OT.cmp in He. congruence.
  - intros [Hle Hne]. destruct (String.compare a b) eqn:Hab; try done.
    by apply OrderedTypeEx.String_as_OT.cmp_eq in Hab.
Qed.

Lemma leb_false (a b : string) :
  String.leb a b = false -> String.ltb b a = true.
Proof.
  intros Hf. apply ltb_leb. split.
  - destruct (String.leb_total a b) as [H|H]; [congruence|done].
  - intros ->. by rewrite leb_refl in Hf.
Qed.

Lemma ltb_leb_trans (a b c : string) :
  String.ltb a b = true -> String.leb b c = true -> String.ltb a c = true.
Proof.
  intros [Hab Hne]%ltb_leb Hbc. apply ltb_leb. split; [by eapply leb_trans|].
  intros ->. apply Hne. by apply String.leb_antisym.
Qed.

Lemma ltb_trans (a b c : string) :
  String.ltb a b = true -> String.ltb b c = true -> String.ltb a c = true.
Proof.
  intros Hab [Hbc _]%ltb_leb. by eapply ltb_leb_trans.
Qed.

Section keyed.
Context {A : Type}.
Implicit Types (l : list (string * A)) (x : string * A) (k : string).

Lemma insert_sorted_perm x l : insert_sorted x l ≡ₚ x :: l.
Proof.
  induction l as [|y r IH]; simpl; [done|].
  destruct (String.leb x.1 y.1); [done|]. rewrite IH. apply Permutation_swap.
Qed.

Lemma sort_by_key_perm l : sort_by_key l ≡ₚ l.
Proof.
  unfold sort_by_key. induction l as [|x r IH]; simpl; [done|].
  by rewrite insert_sorted_perm, IH.
Qed.

Lemma insert_sorted_sorted x l :
  StronglySorted (fun a b => String.leb a.1 b.1 = true) l ->
  StronglySorted (fun a b => String.leb a.1 b.1 = true) (insert_sorted x l).
Proof.
  induction 1 as [|y r Hr IH Hy]; simpl; [by repeat constructor|].
  destruct (String.leb x.1 y.1) eqn:Hxy.
  - constructor; [by constructor|]. constructor; [done|].
    eapply Forall_impl; [exact Hy|]. intros z Hz. by eapply leb_trans.
  - constructor; [done|].
    rewrite (insert_sorted_perm x r). constructor; [|done].
    apply leb_false in Hxy. by apply ltb_leb in Hxy as [? _].
Qed.

Lemma sort_by_key_sorted l :
  StronglySorted (fun a b => String.leb a.1 b.1 = true) (sort_by_key l).
Proof.
  unfold sort_by_key. induction l as [|x r IH]; simpl; [constructor|].
  by apply insert_sorted_sorted.
Qed.

(** The sort is stable: the elements of one key keep their order. *)
Lemma insert_sorted_stable x l k :
  filter (fun p => p.1 = k) (insert_sorted x l) = filter (fun p => p.1 = k) (x :: l).
Proof.
  induction l as [|y r IH]; simpl; [done|].
  destruct (String.leb x.1 y.1) eqn:Hxy; [done|].
  apply leb_false, ltb_leb in Hxy as [_ Hne].
  rewrite (filter_cons _ y), IH, !filter_cons.
  destruct (decide (y.1 = k)) as [Hy|Hy], (decide (x.1 = k)) as [Hx|Hx];
    try done. congruence.
Qed.

Lemma sort_by_key_stable l k :
  filter (fun p => p.1 = k) (sort_by_key l) = filter (fun p => p.1 = k) l.
Proof.
  unfold sort_by_key. induction l as [|x r IH]; simpl; [done|].
  by rewrite insert_sorted_stable, !filter_cons, IH.
Qed.

Lemma filter_key_nil l k :
  (forall p, p ∈ l -> p.1 <> k) -> filter (fun p => p.1 = k) l = [].
Proof.
  intros Hno. destruct (filter _ l) as [|p ?] eqn:Hf; [done|].
  assert (Hp : p ∈ filter (fun p => p.1 = k) l)
    by (rewrite Hf; apply elem_of_cons; by left).
  apply list_elem_of_filter in Hp as [Hk Hp]. by destruct (Hno p Hp).
Qed.

(** [groupby] on a sorted list: one group per key of the list, the keys
    increasing, each group the elements of its key in the order of the
    list. *)
Lemma groupby_sorted l :
  StronglySorted (fun a b => String.leb a.1 b.1 = true) l ->
  concat (map snd (groupby l)) = map snd l /\
  StronglySorted (fun a b => String.ltb a b = true) (map fst (groupby l)) /\
  Forall (fun kg => kg.2 <> [] /\
                    kg.2 = map snd (filter (fun p => p.1 = kg.1) l))
         (groupby l) /\
  Forall (fun p => p.1 ∈ map fst (groupby l)) l.
Proof.
  induction 1 as [|[k x] r Hr (Hcat & Hkeys & Hgroups & Hcover) Hx]; simpl.
  { repeat split; constructor. }
  destruct (groupby r) as [|[k' g] gs] eqn:Hgr; simpl in *.
  - assert (r = []) as ->.
    { destruct r as [|p ?]; [done|].
      apply Forall_cons in Hcover as [Hp _]. by apply elem_of_nil in Hp. }
    repeat split; repeat constructor; simpl; try done.
    by rewrite filter_cons_True.
  - apply Forall_cons in Hgroups as [[Hgne Hg] Hgs]. simpl in *.
    apply StronglySorted_inv in Hkeys as [Hkeys Hk'].
    assert (Hkk' : String.leb k k' = true).
    { destruct (filter (fun p => p.1 = k') r) as [|[k1 y] ?] eqn:Hf;
        [by subst g|].
      assert (Hy : (k1, y) ∈ filter (fun p => p.1 = k') r)
        by (rewrite Hf; apply elem_of_cons; by left).
      apply list_elem_of_filter in Hy as [Hk Hy]. simpl in Hk. subst k1.
      rewrite Forall_forall in Hx. by apply (Hx (k', y)). }
    assert (Hother : forall k'', k'' ∈ map fst gs -> k'' <> k' /\ k'' <> k).
    { intros k'' Hin. rewrite Forall_forall in Hk'.
      pose proof (Hk' k'' Hin) as Hlt. split.
      - intros ->. by apply ltb_leb in Hlt as [_ ?].
      - intros ->. apply ltb_leb in Hlt as [Hle Hne]. apply Hne.
        by apply String.leb_antisym. }
    destruct (String.eqb_spec k k') as [<-|Hne]; simpl.
    + split; [by rewrite <- Hcat|]. split; [by constructor|]. split.
      * constructor; simpl.
        -- split; [done|]. rewrite filter_cons_True by done. simpl.
           by rewrite Hg.
        -- rewrite Forall_forall in Hgs |- *. intros [k'' g''] Hin.
           destruct (Hgs _ Hin) as [? Hg'']. split; [done|]. simpl in *.
           rewrite filter_cons_False; [done|]. simpl.
           assert (Hk'' : k'' ∈ map fst gs)
             by (apply list_elem_of_fmap; by exists (k'', g'')).
           intros ->. by destruct (Hother k'' Hk'').
      * constructor; [simpl; apply elem_of_cons; by left|done].
    + assert (Hlt : String.ltb k k' = true) by (by apply ltb_leb).
      assert (Hnone : filter (fun p => p.1 = k) r = []).
      { apply filter_key_nil. intros p Hp Hpk.
        rewrite Forall_forall in Hcover. specialize (Hcover p Hp).
        rewrite Hpk in Hcover. apply elem_of_cons in Hcover as [Hc|Hc];
          [done|]. by destruct (Hother k Hc). }
      split; [by rewrite <- Hcat|]. split; [|split].
      * constructor; [by constructor|]. constructor; [done|].
        eapply Forall_impl; [exact Hk'|]. intros k'' ?. by eapply ltb_trans.
      * constructor; simpl; [|constructor; simpl].
        -- split; [done|]. rewrite filter_cons_True by done. simpl.
           by rewrite Hnone.
        -- split; [done|]. by rewrite filter_cons_False by (simpl; congruence).
        -- rewrite Forall_forall in Hgs |- *. intros [k'' g''] Hin.
           destruct (Hgs _ Hin) as [? Hg'']. split; [done|]. simpl in *.
           rewrite filter_cons_False; [done|]. simpl.
           assert (Hk'' : k'' ∈ map fst gs)
             by (apply list_elem_of_fmap; by exists (k'', g'')).
           intros ->. by destruct (Hother k'' Hk'').
      * constructor; [simpl; apply elem_of_cons; by left|].
        eapply Forall_impl; [exact Hcover|]. intros p Hp. simpl in *.
        by apply elem_of_cons; right.
Qed.
End keyed.

Lemma keyed_resources (resources : list (gmap string val))
    (keyed : list (string * gmap string val)) :
  mapE (fun obj => let* k := fltr obj in ret (k, obj)) resources = ret keyed ->
  map snd keyed = resources /\
  forall t, map snd (filter (fun p => p.1 = t) keyed)
            = filter (fun obj => fltr obj = ret t) resources.
Proof.
  intros Hmap. apply mapE_Forall2 in Hmap.
  induction Hmap as [|obj [k o] r kr Hobj _ [IH1 IH2]]; [done|].
  destruct (fltr obj) as [e|k0] eqn:Hk; [done|]. simpl in Hobj.
  injection Hobj as <- <-. split; [simpl; by rewrite IH1|].
  intros t. rewrite !filter_cons. simpl.
  destruct (decide (k0 = t)) as [->|Hne].
  - rewrite decide_True by done. simpl. by rewrite IH2.
  - rewrite decide_False by (unfold ret; congruence). apply IH2.
Qed.

(** X7. How [load_data] groups the resources.  The groups it hands to
    [consolidate] are made of the resources with a true ['matrix'] entry,
    each of them in exactly one group; there is one group per type, the
    types in increasing order; no group is empty; and each group holds all
    the resources of its type, in the order of the manifest. *)
Theorem resource_groups_spec (all : list (gmap string val))
    (groups : list (list (gmap string val))) :
  resource_groups all = ret groups ->
  concat groups ≡ₚ filter (fun obj => truthy (obj !! "matrix") = true) all /\
  exists types : list string,
    StronglySorted (fun a b => String.ltb a b = true) types /\
    Forall2 (fun t g =>
               g <> [] /\
               g = filter (fun obj => fltr obj = ret t)
                     (filter (fun obj => truthy (obj !! "matrix") = true) all))
            types groups.
Proof.
  unfold resource_groups.
  set (resources := filter (fun obj => truthy (obj !! "matrix") = true) all).
  destruct (mapE _ resources) as [e|keyed] eqn:Hkeyed; [done|]. simpl.
  intros [= <-].
  destruct (keyed_resources resources keyed Hkeyed) as [Hsnd Hfilter].
  destruct (groupby_sorted (sort_by_key keyed) (sort_by_key_sorted keyed))
    as (Hcat & Hkeys & Hgroups & _).
  split.
  - by rewrite Hcat, sort_by_key_perm, Hsnd.
  - exists (map fst (groupby (sort_by_key keyed))). split; [done|].
    apply Forall2_fmap, Forall_Forall2_diag.
    eapply Forall_impl; [exact Hgroups|]. intros [t g] [Hne Hg]. simpl in *.
    split; [done|]. by rewrite Hg, sort_by_key_stable, Hfilter.
Qed.

Lemma resource_groups_spec_witness :
  resource_groups Example.manifest_resources
  = ret [[Example.biosphere_1]; [Example.technosphere_1; Example.technosphere_2]] /\
  exists types : list string,
    Forall2 (fun t g =>
               g <> [] /\
               g = filter (fun obj => fltr obj = ret t)
                     (filter (fun obj => truthy (obj !! "matrix") = true)
                        Example.manifest_resources))
      types [[Example.biosphere_1]; [Example.technosphere_1; Example.technosphere_2]].
Proof.
  assert (Hrun : resource_groups Example.manifest_resources
                 = ret [[Example.biosphere_1];
                        [Example.technosphere_1; Example.technosphere_2]])
    by (vm_compute; reflexivity).
  split; [exact Hrun|].
  destruct (resource_groups_spec _ _ Hrun) as (_ & types & _ & Hgroups).
  by exists types.
Defined.

(** ** The errors of [__init__] *)

Lemma init_loop_first_error `{RandomState} (pre post : list directory) (d : directory)
    (self : PackagesDataLoader) (loads : list (section * Indexer)) (e : Error) :
  loaded (seed self) (length (sample_indexers self)) pre loads ->
  load_data d (seed self) (length (sample_indexers self) + length pre) = raise e ->
  init_loop (pre ++ d :: post) self = raise e.
Proof.
  revert self loads. induction pre as [|d0 pre IH]; intros self loads [Hlen Hall] Hd.
  - simpl in *. rewrite Nat.add_0_r in Hd. by rewrite Hd.
  - simpl. destruct (Hall 0%nat d0 eq_refl) as ([sec ix] & Hp & Hload).
    rewrite Nat.add_0_r in Hload. rewrite Hload. simpl.
    destruct loads as [|p loads]; [done|]. simpl in Hp. injection Hp as ->.
    apply (IH _ loads).
    + split; [simpl in Hlen; lia|]. intros k d' Hk.
      destruct (Hall (S k) d' Hk) as (p & Hp1 & Hp2). exists p. split; [done|].
      rewrite <- Hp2. simpl. f_equal. rewrite length_app. simpl. lia.
    + rewrite <- Hd. simpl. f_equal. rewrite length_app. simpl. lia.
Qed.

(** X8. [__init__] raises what the first failing [load_data] raises, and
    builds nothing: when the directories before [d] load and the load of [d]
    raises [e], the constructor raises [e], whatever follows [d].  So a
    manifest without the key ['seed'] stops the construction with a
    KeyError, also when the caller gives a seed of its own. *)
Theorem init_first_error (R : RandomState) (pre post : list directory) (d : directory)
    (seed0 : option Z) (loads : list (section * Indexer)) (e : Error) :
  loaded seed0 0 pre loads ->
  load_data d seed0 (length pre) = raise e ->
  init (Some (pre ++ d :: post)) seed0 = raise e.
Proof.
  intros Hpre Hd. unfold init. simpl.
  by rewrite (init_loop_first_error pre post d _ loads e).
Qed.

Lemma init_first_error_witness :
  @init Example.gen
    (Some [Example.package; Example.unseeded_package; Example.empty_package]) (Some 5)
  = raise (KeyError "seed").
Proof.
  apply (init_first_error Example.gen [Example.package] [Example.empty_package]
           Example.unseeded_package (Some 5)
           [(Example.the_section, Example.override_indexer)]).
  - split; [reflexivity|]. intros [|k] d Hk; [|done].
    injection Hk as <-. eexists. split; [reflexivity|]. vm_compute. reflexivity.
  - reflexivity.
Defined.

(** ** What [index_arrays] leaves alone *)

Lemma for_each_Forall2 {A} (R : A -> A -> Prop) (body : A -> A * option Error)
    (l : list A) :
  (forall x, R x x) -> (forall x, R x (body x).1) ->
  Forall2 R l (for_each body l).1.
Proof.
  intros Hrefl Hbody. induction l as [|x r IH]; simpl; [constructor|].
  pose proof (Hbody x) as Hx.
  destruct (body x) as [x' [e|]]; simpl in *.
  - constructor; [done|]. by apply Forall_Forall2_diag, Forall_forall.
  - destruct (for_each body r) as [r' e']; simpl in *. by constructor.
Qed.

Lemma index_axis_inv (lca : target) (elem elem' : gmap string val)
    (fk tk dk : string) :
  index_axis lca elem fk tk dk = ret elem' ->
  exists a l resolved,
    elem !! "indices" = Some (VArray a) /\
    elem !! tk = Some (VStr l) /\
    elem' = <["indices" := VArray (set_field a l resolved)]> elem.
Proof.
  unfold index_axis, getitem.
  destruct (elem !! "indices") as [ind|]; [|done]. cbn -[getattr].
  destruct (elem !! fk) as [fl|]; [|done]. cbn -[getattr].
  destruct (getfield ind fl) as [e|froms]; [done|]. cbn -[getattr].
  destruct (elem !! tk) as [tl|]; [|done]. cbn -[getattr].
  destruct (getfield ind tl) as [e|tos] eqn:Hto; [done|]. cbn -[getattr].
  destruct (elem !! dk) as [dn|]; [|done]. cbn -[getattr].
  destruct (getattr lca dn) as [e|mapping]; [done|]. cbn.
  destruct (index_with_arrays froms mapping) as [e|res]; [done|]. cbn.
  destruct ind as [| | | | | |a|]; try done. cbn.
  destruct tl as [| | |l| | | |]; try done.
  intros [= <-]. by exists a, l, res.
Qed.

Lemma keeps_frame_refl (elem : gmap string val) : keeps_frame elem elem.
Proof. split; [done|]. intros a Ha. by exists a. Qed.

Lemma keeps_frame_index_elem (lca : target) (elem : gmap string val) :
  keeps_frame elem (index_elem lca elem).1.
Proof.
  unfold index_elem.
  destruct (truthy (elem !! "indexed")); [apply keeps_frame_refl|].
  destruct (dict_missing lca elem "row dict") as [e|[|]];
    try apply keeps_frame_refl.
  destruct (if contains elem "col dict" then _ else _) as [e|[|]];
    try apply keeps_frame_refl.
  destruct (index_axis lca elem _ _ _) as [e|elem1] eqn:Hrow;
    [apply keeps_frame_refl|].
  apply index_axis_inv in Hrow as (a & l & res & Ha & Hl & ->).
  assert (Hrows : keeps_frame elem (<["indices" := VArray (set_field a l res)]> elem)).
  { split.
    - intros k ? ?. by rewrite lookup_insert_ne.
    - intros a0 Ha0. rewrite Ha in Ha0. injection Ha0 as <-.
      exists (set_field a l res). rewrite lookup_insert_eq.
      repeat split. intros f Hf _. simpl. rewrite lookup_insert_ne; [done|].
      intros ->. by rewrite Hl in Hf. }
  destruct (contains (<["indices" := _]> elem) "col dict").
  - destruct (index_axis lca _ _ _ _) as [e|elem2] eqn:Hcol; [done|].
    apply index_axis_inv in Hcol as (a1 & l2 & res2 & Ha1 & Hl2 & ->).
    rewrite lookup_insert_eq in Ha1. injection Ha1 as <-.
    rewrite lookup_insert_ne in Hl2 by done.
    simpl. rewrite insert_insert_eq. split.
    + intros k ? ?. by rewrite !lookup_insert_ne.
    + intros a0 Ha0. rewrite Ha in Ha0. injection Ha0 as <-.
      exists (set_field (set_field a l res) l2 res2).
      rewrite lookup_insert_ne, lookup_insert_eq by done.
      repeat split. intros f Hf1 Hf2. simpl.
      rewrite !lookup_insert_ne; [done|..]; intros ->; congruence.
  - simpl. destruct Hrows as [Hk Ht]. split.
    + intros k ? ?. rewrite lookup_insert_ne by done. by apply Hk.
    + intros a0 Ha0. destruct (Ht a0 Ha0) as (a' & Ha' & ?).
      exists a'. by rewrite lookup_insert_ne.
Qed.

(** X9. What [index_arrays] leaves alone.  Whatever the target, and whether
    the call raises or not, the loader after the call has the same seed,
    Indexers and references, the same sections in the same places, and in
    each section the same number of groups; every group keeps all its
    entries but ['indices'] and ['indexed'] (its matrix, its labels, its
    dictionary names, its samples), and its table keeps its dtype and every
    column other than the two position fields the group names. *)
Theorem index_arrays_frame (self : PackagesDataLoader) (lca : target) :
  seed (index_arrays self lca).1 = seed self /\
  sample_indexers (index_arrays self lca).1 = sample_indexers self /\
  msi (index_arrays self lca).1 = msi self /\
  psi (index_arrays self lca).1 = psi self /\
  parameter_metadata_list (index_arrays self lca).1 = parameter_metadata_list self /\
  empty (index_arrays self lca).1 = empty self /\
  Forall2 keeps_section (data self) (data (index_arrays self lca).1).
Proof.
  unfold index_arrays, nonempty. destruct (empty self) eqn:Hempty; simpl.
  - repeat split; try done. apply Forall_Forall2_diag, Forall_forall.
    intros sec _. repeat split.
    apply Forall_Forall2_diag, Forall_forall. intros ? _. apply keeps_frame_refl.
  - pose proof (for_each_Forall2 keeps_section (index_section lca) (data self))
      as Hall.
    destruct (for_each (index_section lca) (data self)) as [d e]; simpl in *.
    repeat split; try done. apply Hall.
    + intros sec. repeat split.
      apply Forall_Forall2_diag, Forall_forall. intros ? _. apply keeps_frame_refl.
    + intros sec. unfold index_section.
      pose proof (for_each_Forall2 keeps_frame (index_elem lca) (matrix_data sec)
                    keeps_frame_refl (keeps_frame_index_elem lca)) as Hmd.
      destruct (for_each (index_elem lca) (matrix_data sec)) as [md e'].
      by repeat split.
Qed.

(** ** When [index_arrays] raises and when it does not *)





(** X11. [index_arrays] is not atomic on a group.  When the row dictionary
    is there and the rows resolve, but the call of [index_with_arrays] for
    the columns raises, the exception leaves the loop with the row positions
    of the group already overwritten and its flag not set, so that a later
    call resolves the group again from its raw identifiers. *)
Theorem index_elem_half_done (lca : target) (elem : gmap string val)
    (g : ResourceGroup) (ax : axis) (drow : gmap Z Z) (a : attr) (t1 : recarray)
    (e : Error) :
  truthy (elem !! "indexed") = false ->
  describes g elem ->
  rg_cols g = Some ax ->
  getattr lca (VStr (dict_name (rg_rows g))) = ret (ADict drow) ->
  getattr lca (VStr (dict_name ax)) = ret a ->
  resolve_axis (rg_table g) (rg_rows g) drow = Some t1 ->
  index_axis lca (<["indices" := VArray t1]> elem)
    "col from label" "col to label" "col dict" = raise e ->
  index_elem lca elem = (<["indices" := VArray t1]> elem, Some e) /\
  truthy ((<["indices" := VArray t1]> elem) !! "indexed") = false.
Proof.
  intros Hidx (_ & Hind & Hrows & Hcols) Hax Hdr Hdc H1 Hraise.
  rewrite Hax in Hcols. pose proof Hrows as (_ & _ & Hrd).
  pose proof Hcols as (_ & _ & Hcd).
  split; [|by rewrite lookup_insert_ne].
  unfold index_elem. rewrite Hidx.
  rewrite (dict_missing_present _ _ _ _ _ Hrd Hdr).
  cbv beta iota delta [ret].
  rewrite (contains_Some _ _ _ Hcd).
  rewrite (dict_missing_present _ _ _ _ _ Hcd Hdc).
  cbv beta iota delta [ret].
  rewrite (index_axis_resolves _ _ _ _ _ _ _ _ _ Hind Hrows Hdr H1).
  cbv beta iota delta [ret].
  assert (Hcd1 : (<["indices" := VArray t1]> elem) !! "col dict"
                 = Some (VStr (dict_name ax))) by by rewrite lookup_insert_ne.
  rewrite (contains_Some _ _ _ Hcd1). by rewrite Hraise.
Qed.

Lemma index_elem_half_done_witness :
  index_elem Example.BrokenLCA Example.elem
  = (<["indices" := VArray Example.rows_only_indices]> Example.elem,
     Some (AttributeError "keys")).
Proof.
  assert (Hdesc : describes Example.group Example.elem)
    by (repeat split; reflexivity).
  refine (proj1 (index_elem_half_done Example.BrokenLCA Example.elem Example.group
                   {| from_label := "f2"; to_label := "f4"; dict_name := "col_dict" |}
                   Example.row_dict AOther Example.rows_only_indices
                   (AttributeError "keys") eq_refl Hdesc eq_refl eq_refl eq_refl _ _)).
  - vm_compute. reflexivity.
  - vm_compute. reflexivity.
Defined.

(** ** Indexing and advancing *)


(** ** What [update_matrices] leaves alone *)

Lemma fold_each_inv_in {A S} (P : S -> Prop) (body : A -> S -> S * option Error)
    (l : list A) (st : S) :
  (forall x st0, x ∈ l -> P st0 -> P (body x st0).1) ->
  P st -> P (fold_each body l st).1.
Proof.
  revert st. induction l as [|x r IH]; intros st Hbody Hst; [done|].
  simpl. assert (Hx : P (body x st).1) by (apply Hbody; [apply elem_of_cons; by left|done]).
  destruct (body x st) as [st' [e|]]; simpl in *; [done|].
  apply IH; [|done]. intros y st0 Hy. apply Hbody. apply elem_of_cons. by right.
Qed.

Lemma same_kind_refl (a : result attr) : same_kind a a.
Proof. by destruct a as [e|[| |]]. Qed.

Lemma same_kind_trans (a b c : result attr) :
  same_kind a b -> same_kind b c -> same_kind a c.
Proof.
  unfold same_kind.
  destruct a as [ea|[da|ma|]], b as [eb|[db|mb|]], c as [ec|[dc|mc|]];
    try done; congruence.
Qed.

(** What one step may do to the target: nothing, or put a matrix in the
    place of the matrix the group names. *)
Lemma update_elem_effect (matrices : option (list string)) (indexer : option Indexer)
    (elem : gmap string val) (lca : target) :
  (update_elem matrices indexer elem lca).1 = lca \/
  exists n attrs m m',
    elem !! "matrix" = Some (VStr n) /\ lca = TObj attrs /\
    attrs !! n = Some (AMatrix m) /\
    filtered_out matrices (VStr n) = false /\
    (update_elem matrices indexer elem lca).1 = TObj (<[n := AMatrix m']> attrs).
Proof.
  unfold update_elem, getitem.
  destruct (elem !! "matrix") as [name|] eqn:Hname; [|by left]. cbn -[getattr].
  destruct (getattr lca name) as [e|matrix] eqn:Hget; [left; by destruct e|].
  destruct (filtered_out matrices name) eqn:Hf; [by left|].
  destruct (let* vector := elem_sample indexer elem in _) as [e|matrix'] eqn:Hw;
    [by left|].
  destruct (elem_sample indexer elem) as [e|vector]; [done|]. simpl in Hw.
  destruct (elem_assignments elem vector) as [e|ws]; [done|]. simpl in Hw.
  destruct matrix as [|m|]; try done. injection Hw as <-.
  destruct name as [| | |n| | | |]; try done.
  destruct lca as [|attrs]; [done|]. simpl in Hget.
  destruct (attrs !! n) as [a|] eqn:Hn; [|done]. injection Hget as ->.
  right. by exists n, attrs, m, (setitem m ws).
Qed.

Lemma update_elem_kind (matrices : option (list string)) (indexer : option Indexer)
    (elem : gmap string val) (lca : target) (n : string) :
  same_kind (getattr lca (VStr n))
            (getattr (update_elem matrices indexer elem lca).1 (VStr n)) /\
  (elem !! "matrix" <> Some (VStr n) ->
   getattr (update_elem matrices indexer elem lca).1 (VStr n) = getattr lca (VStr n)).
Proof.
  destruct (update_elem_effect matrices indexer elem lca)
    as [->|(n0 & attrs & m & m' & Hname & -> & Hm & _ & ->)].
  - split; [apply same_kind_refl|done].
  - simpl. destruct (decide (n0 = n)) as [->|Hne].
    + rewrite lookup_insert_eq, Hm. split; [done|]. by intros [].
    + rewrite lookup_insert_ne by done. split; [apply same_kind_refl|done].
Qed.

(** X13. What [update_matrices] leaves alone.  Whether the call raises or
    not, every attribute of the target that no group of the loader names
    under ['matrix'] is after the call what it was before; an attribute that
    is not a matrix (a dictionary, or an absent one) is never changed or
    created; a matrix is still a matrix. *)
Theorem update_matrices_frame_named (self : PackagesDataLoader) (lca : target)
    (matrices : option (list string)) (n : string) :
  same_kind (getattr lca (VStr n))
            (getattr (update_matrices self lca matrices).1 (VStr n)) /\
  (Forall (fun elem => elem !! "matrix" <> Some (VStr n)) (groups_of self) ->
   getattr (update_matrices self lca matrices).1 (VStr n) = getattr lca (VStr n)).
Proof.
  unfold update_matrices, nonempty.
  destruct (empty self); [split; [apply same_kind_refl|done]|].
  split.
  - apply (fold_each_inv (fun st => same_kind (getattr lca (VStr n)) (getattr st (VStr n))));
      [|apply same_kind_refl].
    intros p st Hst. unfold update_section.
    apply (fold_each_inv (fun st => same_kind (getattr lca (VStr n)) (getattr st (VStr n))));
      [|done].
    intros elem st0 Hst0. eapply same_kind_trans; [exact Hst0|].
    apply update_elem_kind.
  - intros Hall. unfold groups_of in Hall. rewrite Forall_flat_map in Hall.
    apply (fold_each_inv_in (fun st => getattr st (VStr n) = getattr lca (VStr n)));
      [|done].
    intros [ref sec] st Hin%elem_of_zip_r Hst. simpl in Hin.
    rewrite Forall_forall in Hall. specialize (Hall sec Hin).
    unfold update_section. simpl.
    apply (fold_each_inv_in (fun st => getattr st (VStr n) = getattr lca (VStr n)));
      [|done].
    intros elem st0 Helem Hst0. rewrite <- Hst0.
    rewrite Forall_forall in Hall. by apply update_elem_kind, Hall.
Qed.

Lemma update_matrices_frame_named_witness :
  getattr (update_matrices Example.loader Example.MockLCA None).1 (VStr "row_dict")
  = ret (ADict Example.row_dict).
Proof.
  apply (update_matrices_frame_named Example.loader Example.MockLCA None "row_dict").
  apply Forall_singleton. discriminate.
Defined.

(** ** Indexing, then writing *)





(** ** Writing twice *)

Lemma setitem_cons (m : gmap (Z * Z) Z) (w : Z * Z * Z) (ws : list (Z * Z * Z)) :
  setitem m (w :: ws) = setitem (<[w.1 := w.2]> m) ws.
Proof. reflexivity. Qed.

(** The assignments decide the content of the cells they name; the other
    cells keep theirs. *)
Lemma setitem_agree (m1 m2 : gmap (Z * Z) Z) (ws : list (Z * Z * Z)) (p : Z * Z) :
  p ∈ ws.*1 \/ m1 !! p = m2 !! p ->
  setitem m1 ws !! p = setitem m2 ws !! p.
Proof.
  revert m1 m2. induction ws as [|w ws IH]; intros m1 m2 H.
  - destruct H as [H|H]; [by apply elem_of_nil in H|done].
  - rewrite !setitem_cons. apply IH.
    destruct (decide (w.1 = p)) as [<-|Hne].
    + right. by rewrite !lookup_insert_eq.
    + destruct H as [H|H].
      * left. simpl in H. apply elem_of_cons in H as [->|H]; done.
      * right. by rewrite !lookup_insert_ne.
Qed.

Lemma setitem_unnamed (m : gmap (Z * Z) Z) (ws : list (Z * Z * Z)) (p : Z * Z) :
  p ∉ ws.*1 -> setitem m ws !! p = m !! p.
Proof.
  intros Hp. apply setitem_other. intros k q u Hk Heq. apply Hp.
  apply list_elem_of_fmap. exists (q, u). split; [done|].
  by apply list_elem_of_lookup_2 in Hk.
Qed.

Lemma matrix_of_Some (lca : target) (n : string) (m : gmap (Z * Z) Z) :
  matrix_of lca n = Some m <->
  exists attrs, lca = TObj attrs /\ attrs !! n = Some (AMatrix m).
Proof.
  unfold matrix_of. destruct lca as [|attrs]; simpl.
  - split; [done|]. by intros (? & ? & _).
  - destruct (attrs !! n) as [[| |]|] eqn:Hn; simpl; split; try done;
      try (intros (? & [= <-] & H); rewrite Hn in H; by try injection H as ->).
    intros [= <-]. by exists attrs.
Qed.

Lemma getattr_set_attr (attrs : gmap string attr) (n n' : string) (a : attr) :
  getattr (TObj (<[n := a]> attrs)) (VStr n')
  = if decide (n = n') then ret a else getattr (TObj attrs) (VStr n').
Proof.
  simpl. destruct (decide (n = n')) as [->|Hne].
  - by rewrite lookup_insert_eq.
  - by rewrite lookup_insert_ne.
Qed.

(** One step of the loop on two targets of the same kinds: the same
    exception, and either no write or the same assignments to the matrix of
    one name. *)
Lemma update_elem_two (matrices : option (list string)) (indexer : option Indexer)
    (elem : gmap string val) (A B : target) :
  (forall n, same_kind (getattr A (VStr n)) (getattr B (VStr n))) ->
  (update_elem matrices indexer elem B).2 = (update_elem matrices indexer elem A).2 /\
  (((update_elem matrices indexer elem A).1 = A /\
    (update_elem matrices indexer elem B).1 = B) \/
   exists n attrsA attrsB mA mB ws,
     A = TObj attrsA /\ B = TObj attrsB /\
     attrsA !! n = Some (AMatrix mA) /\ attrsB !! n = Some (AMatrix mB) /\
     (update_elem matrices indexer elem A).1
     = TObj (<[n := AMatrix (setitem mA ws)]> attrsA) /\
     (update_elem matrices indexer elem B).1
     = TObj (<[n := AMatrix (setitem mB ws)]> attrsB)).
Proof.
  intros Hkind. unfold update_elem, getitem.
  destruct (elem !! "matrix") as [name|]; [|by split; [|left]].
  cbn -[getattr].
  destruct name as [| | |n| | | |]; try (by split; [|left]).
  specialize (Hkind n). unfold same_kind in Hkind.
  destruct (getattr A (VStr n)) as [eA|aA] eqn:HA,
           (getattr B (VStr n)) as [eB|aB] eqn:HB.
  - injection Hkind as ->. destruct eB; by split; [|left].
  - by destruct aB.
  - by destruct aA.
  - destruct (filtered_out matrices (VStr n)); [by split; [|left]|].
    destruct (elem_sample indexer elem) as [e|vector]; [by split; [|left]|].
    cbn -[getattr].
    destruct (elem_assignments elem vector) as [e|ws]; [by split; [|left]|].
    cbn -[getattr].
    destruct aA as [dA|mA|], aB as [dB|mB|]; try done;
      try (by split; [|left]).
    cbn. split; [done|]. right.
    destruct A as [|attrsA]; [done|]. destruct B as [|attrsB]; [done|].
    simpl in HA, HB.
    destruct (attrsA !! n) as [a1|] eqn:H1; [|done]. injection HA as ->.
    destruct (attrsB !! n) as [a2|] eqn:H2; [|done]. injection HB as ->.
    by exists n, attrsA, attrsB, mA, mB, ws.
Qed.

Lemma replay_step (F : target) (matrices : option (list string))
    (indexer : option Indexer) (elem : gmap string val)
    (W : list (string * (Z * Z))) (A B : target) :
  replay F W A B ->
  (update_elem matrices indexer elem B).2 = (update_elem matrices indexer elem A).2 /\
  exists W', replay F W' (update_elem matrices indexer elem A).1
                         (update_elem matrices indexer elem B).1.
Proof.
  intros (Hnone & Hkind & HkindF & Hw & Hu).
  destruct (update_elem_two matrices indexer elem A B Hkind)
    as [Herr [[-> ->]|(n & attrsA & attrsB & mA & mB & ws
                       & -> & -> & HmA & HmB & -> & ->)]].
  - split; [done|]. by exists W.
  - split; [done|].
    exists (W ++ ((fun q => (n, q)) <$> ws.*1)).
    assert (Hnew : forall n' p, (n', p) ∈ (fun q => (n, q)) <$> ws.*1
                                <-> n' = n /\ p ∈ ws.*1).
    { intros n' p. split.
      - intros (q & [= -> ->] & Hq)%list_elem_of_fmap. done.
      - intros [-> Hp]. apply list_elem_of_fmap. by exists p. }
    split; [done|]. split; [|split; [|split]].
    + intros n'. rewrite !getattr_set_attr.
      destruct (decide (n = n')); [done|]. apply Hkind.
    + intros n'. rewrite getattr_set_attr.
      destruct (decide (n = n')) as [<-|]; [|apply HkindF].
      specialize (HkindF n).
      assert (HB : getattr (TObj attrsB) (VStr n) = inr (AMatrix mB))
        by (simpl; by rewrite HmB).
      rewrite HB in HkindF. unfold same_kind, ret in *.
      by destruct (getattr F (VStr n)) as [|[| |]].
    + intros n' p mA' mB' Hin HA' HB'.
      apply matrix_of_Some in HA' as (? & [= <-] & HA').
      apply matrix_of_Some in HB' as (? & [= <-] & HB').
      destruct (decide (n = n')) as [<-|Hne].
      * rewrite lookup_insert_eq in HA', HB'.
        injection HA' as <-. injection HB' as <-.
        apply setitem_agree.
        destruct (decide (p ∈ ws.*1)) as [Hp|Hp]; [by left|right].
        apply elem_of_app in Hin as [Hin|Hin].
        -- apply (Hw n p); [done|..]; apply matrix_of_Some; eauto.
        -- apply Hnew in Hin as [_ ?]. done.
      * rewrite lookup_insert_ne in HA', HB' by done.
        apply elem_of_app in Hin as [Hin|Hin].
        -- apply (Hw n' p); [done|..]; apply matrix_of_Some; eauto.
        -- apply Hnew in Hin as [-> _]. done.
    + intros n' p mB' mF Hout HB' HF.
      apply matrix_of_Some in HB' as (? & [= <-] & HB').
      assert (HoutW : (n', p) ∉ W) by (intros ?; apply Hout, elem_of_app; by left).
      destruct (decide (n = n')) as [<-|Hne].
      * rewrite lookup_insert_eq in HB'. injection HB' as <-.
        rewrite setitem_unnamed.
        -- apply (Hu n p); [done| |done]. apply matrix_of_Some; eauto.
        -- intros Hp. apply Hout, elem_of_app. right. by apply Hnew.
      * rewrite lookup_insert_ne in HB' by done.
        apply (Hu n' p); [done| |done]. apply matrix_of_Some; eauto.
Qed.

(** Two runs of a loop whose steps keep a relation between the two states
    and raise the same exceptions. *)
Lemma fold_each_sim {A S G} (I : G -> S -> S -> Prop)
    (body : A -> S -> S * option Error) (l : list A) :
  (forall x g a b, I g a b ->
     (body x b).2 = (body x a).2 /\ exists g', I g' (body x a).1 (body x b).1) ->
  forall g a b, I g a b ->
    (fold_each body l b).2 = (fold_each body l a).2 /\
    exists g', I g' (fold_each body l a).1 (fold_each body l b).1.
Proof.
  intros Hbody. induction l as [|x r IH]; intros g a b Hab; simpl.
  - split; [done|]. by exists g.
  - destruct (Hbody x g a b Hab) as [He [g' Hg']].
    destruct (body x a) as [a' ea], (body x b) as [b' eb]. simpl in *. subst eb.
    destruct ea as [e|]; [split; [done|]; by exists g'|].
    by apply (IH g').
Qed.

Lemma replay_run (F : target) (self : PackagesDataLoader)
    (matrices : option (list string)) (W : list (string * (Z * Z))) (A B : target) :
  replay F W A B ->
  (update_matrices self B matrices).2 = (update_matrices self A matrices).2 /\
  exists W', replay F W' (update_matrices self A matrices).1
                         (update_matrices self B matrices).1.
Proof.
  intros Hrep. unfold update_matrices, nonempty.
  destruct (empty self); [split; [done|]; by exists W|].
  apply (fold_each_sim (replay F) _ _) with (g := W); [|done].
  intros p g a b Hab. unfold update_section.
  apply (fold_each_sim (replay F) _ _) with (g := g); [|done].
  intros elem g0 a0 b0. apply replay_step.
Qed.

Lemma update_matrices_none (self : PackagesDataLoader) (lca : target)
    (matrices : option (list string)) :
  lca = TNone <-> (update_matrices self lca matrices).1 = TNone.
Proof.
  unfold update_matrices, nonempty. destruct (empty self); [done|].
  apply (fold_each_inv (fun st => lca = TNone <-> st = TNone)); [|done].
  intros p st Hst. unfold update_section.
  apply (fold_each_inv (fun st => lca = TNone <-> st = TNone)); [|done].
  intros elem st0 Hst0. rewrite Hst0.
  destruct (update_elem_effect matrices (sample_indexers self !! p.1) elem st0)
    as [->|(n & attrs & m & m' & _ & -> & _ & _ & ->)]; [done|].
  by split.
Qed.

(** X15. Writing twice is writing once.  A second call of
    [update_matrices] with the same filter, made on the target the first
    call left and before the sample indices advance, raises what the first
    raised and leaves the target as the first left it. *)
Theorem update_matrices_twice (self : PackagesDataLoader) (lca : target)
    (matrices : option (list string)) :
  update_matrices self (update_matrices self lca matrices).1 matrices
  = update_matrices self lca matrices.
Proof.
  remember (update_matrices self lca matrices).1 as F eqn:HF.
  assert (Hinit : replay F [] lca F).
  { subst F. split; [apply update_matrices_none|]. split; [|split; [|split]].
    - intros n. apply update_matrices_frame_named.
    - intros n. apply same_kind_refl.
    - intros n p mA mB Hin. by apply elem_of_nil in Hin.
    - intros n p mB mF _ HB HF. rewrite HB in HF. by injection HF as ->. }
  destruct (replay_run F self matrices [] lca F Hinit)
    as [Herr (W & Hnone & _ & Hkind & Hw & Hu)].
  rewrite <- HF in Hnone, Hw.
  remember (update_matrices self F matrices).1 as B eqn:HB.
  assert (HBF : B = F).
  { destruct F as [|attrsF], B as [|attrsB]; [done| | |].
    - destruct Hnone as [Hn _]. by specialize (Hn eq_refl).
    - destruct Hnone as [_ Hn]. by specialize (Hn eq_refl).
    - f_equal. apply map_eq. intros n.
      specialize (Hkind n). simpl in Hkind.
      unfold same_kind, ret, raise in Hkind.
      destruct (attrsB !! n) as [[dB|mB|]|] eqn:HnB,
               (attrsF !! n) as [[dF|mF|]|] eqn:HnF; try done; try congruence.
      do 2 f_equal. apply map_eq. intros p.
      destruct (decide ((n, p) ∈ W)) as [Hin|Hout].
      + symmetry. apply (Hw n p); [done|..]; apply matrix_of_Some; eauto.
      + apply (Hu n p); [done|..]; apply matrix_of_Some; eauto. }
  destruct (update_matrices self F matrices) as [B' e'].
  destruct (update_matrices self lca matrices) as [F' e].
  simpl in *. by subst.
Qed.
